(** * Pulse generator for the 68HC11 (pulse.c)

    A shallow embedding of [pulse.c]: the cycle table, the OC4 output
    compare interrupt handler and the driver loop of [main], followed by
    the timing, cursor, ordering and termination properties of the
    program.

    Conventions.
    - [unsigned short] and [unsigned char] values are integers of [Z] with
      the wrap-around written out ([ushort], [uchar]).
    - The pointer [cycle_next] is the element offset from [&cycle_table[0]];
      reading through it outside the table is undefined behaviour and makes
      the computation fail ([None]).
    - Every store to a global, every access to [_io_ports] and every call
      of a service of the board support library appends an [event] to the
      [trace] of the state, in program order.
    - The register numbers and bit masks of <sys/ports.h> are not part of
      the program text: they are variables of the section [Program]. *)

From Stdlib Require Import ZArith List Bool Lia Ascii String.
Import ListNotations.
Local Open Scope Z_scope.

(** ** Integer types of the target *)

Definition ushort (n : Z) : Z := n mod 65536.
Definition uchar (n : Z) : Z := n mod 256.

Arguments ushort : simpl never.
Arguments uchar : simpl never.

(** ** The cycle table *)

(** [#define US_TO_CYCLE(N) ((N) * 2)] *)
Definition US_TO_CYCLE (N : Z) : Z := N * 2.

(** The pattern in microseconds, as written in the initialiser. *)
Definition cycle_table_us : list Z :=
  [500; 500; 500; 1000; 1000; 5000; 100; 500; 5000; 1000; 100; 100].

(** [static const unsigned short cycle_table[]]: every initialiser is
    converted to [unsigned short]. *)
Definition cycle_table : list Z :=
  [ ushort (US_TO_CYCLE 500);
    ushort (US_TO_CYCLE 500);
    ushort (US_TO_CYCLE 500);
    ushort (US_TO_CYCLE 1000);
    ushort (US_TO_CYCLE 1000);
    ushort (US_TO_CYCLE 5000);
    ushort (US_TO_CYCLE 100);
    ushort (US_TO_CYCLE 500);
    ushort (US_TO_CYCLE 5000);
    ushort (US_TO_CYCLE 1000);
    ushort (US_TO_CYCLE 100);
    ushort (US_TO_CYCLE 100) ].

(** [#define TABLE_SIZE(T) ((sizeof T / sizeof T[0]))] *)
Definition TABLE_SIZE (T : list Z) : Z := Z.of_nat (List.length T).

(** [cycle_table[k]], with 0 outside the table (used in statements only;
    the program reads through [load_cycle_next], which fails there). *)
Definition table_at (k : Z) : Z := nth (Z.to_nat k) cycle_table 0.

(** ** Hardware, events and program state *)

(** The memory mapped registers [_io_ports] (an array of [unsigned char])
    and the free running counter read by [get_timer_counter]. *)
Record hardware : Type := mkHardware {
  _io_ports : Z -> Z;
  TCNT : Z
}.

Definition poke (ports : Z -> Z) (a v : Z) : Z -> Z :=
  fun x => if x =? a then v else ports x.

Inductive event : Type :=
| Lock
| Unlock
| SerialInit
| SetInterruptHandler (vector : Z)
| GetTimerCounter (v : Z)
| IoRead (addr v : Z)
| IoWrite (addr v : Z)
| ReadCycleTable (offset v : Z)
| SetOutputCompare4 (v : Z)
| StoreChangeTime (v : Z)
| StoreCycleNext (offset : Z)
| StoreWakeup (v : Z)
| SerialSend (ch : ascii).

(** The globals of pulse.c together with the hardware they drive. *)
Record state : Type := mkState {
  hw : hardware;
  locked : bool;
  cycle_next : Z;
  wakeup : Z;
  change_time : Z;
  trace : list event
}.

Definition set_hw (h : hardware) (s : state) : state :=
  mkState h (locked s) (cycle_next s) (wakeup s) (change_time s) (trace s).

(** ** A state and failure monad for the statements of the program *)

Definition M (A : Type) : Type := state -> option (A * state).

Definition ret {A : Type} (a : A) : M A := fun s => Some (a, s).

Definition bind {A B : Type} (m : M A) (k : A -> M B) : M B :=
  fun s => match m s with
           | Some (a, s') => k a s'
           | None => None
           end.

Definition fail {A : Type} : M A := fun _ => None.

Declare Scope prog_scope.
Delimit Scope prog_scope with prog.
Notation "x <- m ;; k" := (bind m (fun x => k))
  (at level 61, m at next level, right associativity) : prog_scope.
Notation "m ;; k" := (bind m (fun _ => k))
  (at level 61, right associativity) : prog_scope.
Local Open Scope prog_scope.

Definition emit (e : event) : M unit :=
  fun s => Some (tt, mkState (hw s) (locked s) (cycle_next s) (wakeup s)
                             (change_time s) (trace s ++ [e])).

(** Loads and stores of the globals. *)
Definition get_cycle_next : M Z := fun s => Some (cycle_next s, s).
Definition get_change_time : M Z := fun s => Some (change_time s, s).
Definition get_wakeup : M Z := fun s => Some (wakeup s, s).

Definition put_cycle_next (p : Z) : M unit :=
  fun s => Some (tt, mkState (hw s) (locked s) p (wakeup s)
                             (change_time s) (trace s ++ [StoreCycleNext p])).

Definition put_change_time (v : Z) : M unit :=
  fun s => Some (tt, mkState (hw s) (locked s) (cycle_next s) (wakeup s)
                             v (trace s ++ [StoreChangeTime v])).

Definition put_wakeup (v : Z) : M unit :=
  fun s => Some (tt, mkState (hw s) (locked s) (cycle_next s) v
                             (change_time s) (trace s ++ [StoreWakeup v])).

(** [*cycle_next]: defined only while the pointer is inside the table. *)
Definition load_cycle_next : M Z :=
  fun s =>
    let p := cycle_next s in
    if (0 <=? p) && (p <? TABLE_SIZE cycle_table) then
      match nth_error cycle_table (Z.to_nat p) with
      | Some v => emit (ReadCycleTable p v) ;; ret v
      | None => fail
      end s
    else None.

(** [_io_ports[a]] as an rvalue and as an lvalue. *)
Definition io_read (a : Z) : M Z :=
  fun s => let v := uchar (_io_ports (hw s) a) in
           (emit (IoRead a v) ;; ret v) s.

Definition io_write (a v : Z) : M unit :=
  fun s =>
    let h := mkHardware (poke (_io_ports (hw s)) a (uchar v)) (TCNT (hw s)) in
    emit (IoWrite a (uchar v)) (set_hw h s).

(** ** Services of the board support library

    These functions come from <sys/ports.h>, <sys/locks.h>,
    <sys/interrupts.h> and <sys/sio.h>; only their calls are in pulse.c. *)

(** Modelled from the spec: [read_counter() -> ticks], an instantaneous
    read of the free running counter, returned as [unsigned short]. *)
Definition get_timer_counter : M Z :=
  fun s => let v := ushort (TCNT (hw s)) in
           (emit (GetTimerCounter v) ;; ret v) s.

(** Modelled from the spec: [arm_compare(target_ticks)], schedule the OC4
    event at an absolute tick value of the counter. *)
Definition set_output_compare_4 (v : Z) : M unit := emit (SetOutputCompare4 v).

(** Modelled from the spec: masking and unmasking of interrupts. *)
Definition lock : M unit :=
  fun s => emit Lock (mkState (hw s) true (cycle_next s) (wakeup s)
                              (change_time s) (trace s)).

Definition unlock : M unit :=
  fun s => emit Unlock (mkState (hw s) false (cycle_next s) (wakeup s)
                                (change_time s) (trace s)).

(** Modelled from the spec: [send_byte(b)] and the serial port set-up. *)
Definition serial_init : M unit := emit SerialInit.
Definition serial_send (ch : ascii) : M unit := emit (SerialSend ch).

(** Modelled from the spec: [register_handler(event_id, handler)]; the
    handler is always [output_compare_interrupt]. *)
Definition set_interrupt_handler (vector : Z) : M unit :=
  emit (SetInterruptHandler vector).

(** ** Observations on traces *)

(** The values passed to [set_output_compare_4], in order. *)
Fixpoint programmed (tr : list event) : list Z :=
  match tr with
  | [] => []
  | SetOutputCompare4 v :: tr' => v :: programmed tr'
  | _ :: tr' => programmed tr'
  end.

(** The characters passed to [serial_send], in order. *)
Fixpoint serial_output (tr : list event) : list ascii :=
  match tr with
  | [] => []
  | SerialSend ch :: tr' => ch :: serial_output tr'
  | _ :: tr' => serial_output tr'
  end.

(** How many times [wakeup] was stored with value [v]. *)
Fixpoint wakeup_stores (v : Z) (tr : list event) : nat :=
  match tr with
  | [] => O
  | StoreWakeup w :: tr' =>
      if w =? v then S (wakeup_stores v tr') else wakeup_stores v tr'
  | _ :: tr' => wakeup_stores v tr'
  end.

(** The values returned by [get_timer_counter], in order. *)
Fixpoint counter_reads (tr : list event) : list Z :=
  match tr with
  | [] => []
  | GetTimerCounter v :: tr' => v :: counter_reads tr'
  | _ :: tr' => counter_reads tr'
  end.

(** The stores to [change_time] and [cycle_next], in order. *)
Fixpoint engine_stores (tr : list event) : list event :=
  match tr with
  | [] => []
  | StoreChangeTime v :: tr' => StoreChangeTime v :: engine_stores tr'
  | StoreCycleNext p :: tr' => StoreCycleNext p :: engine_stores tr'
  | _ :: tr' => engine_stores tr'
  end.

(** Successive differences of a sequence of compare values that follows
    [prev], in the arithmetic of the 16 bit counter. *)
Fixpoint deltas (prev : Z) (vs : list Z) : list Z :=
  match vs with
  | [] => []
  | v :: vs' => ushort (v - prev) :: deltas v vs'
  end.

(** ** The minimum duration *)

(** The comment on [cycle_table]: a value below 100 cycles will produce a
    32 ms pulse. *)
Definition MIN_CYCLES : Z := 100.

(** A validation pass over a table: the positions and values of the
    entries below the threshold. *)
Fixpoint undersized_from (k : nat) (threshold : Z) (T : list Z)
  : list (nat * Z) :=
  match T with
  | [] => []
  | v :: T' =>
      if v <? threshold then (k, v) :: undersized_from (S k) threshold T'
      else undersized_from (S k) threshold T'
  end.

Definition undersized (threshold : Z) (T : list Z) : list (nat * Z) :=
  undersized_from 0 threshold T.

(** ** Schedules of interrupts *)

(** A schedule tells, for every step of [main], which OC4 interrupts are
    serviced just before it: one hardware state per interrupt, none when
    the list is empty. *)
Definition schedule : Type := nat -> list hardware.

(** ** The interrupt table

    [struct interrupt_vectors vectors], compiled when USE_INTERRUPT_TABLE
    is defined.  The initialiser names every field, so it is a list of
    (field, handler) pairs in the order of the source; the handlers are
    the three functions it mentions. *)

Module InterruptTable.

Inductive field : Type :=
| res0_handler | res1_handler | res2_handler | res3_handler
| res4_handler | res5_handler | res6_handler | res7_handler
| res8_handler | res9_handler | res10_handler
| sci_handler | spi_handler
| acc_overflow_handler | acc_input_handler | timer_overflow_handler
| output5_handler | output3_handler | output2_handler | output1_handler
| capture3_handler | capture2_handler | capture1_handler
| rtii_handler | irq_handler | xirq_handler | swi_handler
| illegal_handler | cop_fail_handler | cop_clock_handler
| output4_handler | reset_handler.

Inductive handler : Type :=
| fatal_interrupt
| output_compare_interrupt
| _start.

Definition vectors : list (field * handler) :=
  [ (res0_handler, fatal_interrupt);
    (res1_handler, fatal_interrupt);
    (res2_handler, fatal_interrupt);
    (res3_handler, fatal_interrupt);
    (res4_handler, fatal_interrupt);
    (res5_handler, fatal_interrupt);
    (res6_handler, fatal_interrupt);
    (res7_handler, fatal_interrupt);
    (res8_handler, fatal_interrupt);
    (res9_handler, fatal_interrupt);
    (res10_handler, fatal_interrupt);
    (sci_handler, fatal_interrupt);
    (spi_handler, fatal_interrupt);
    (acc_overflow_handler, fatal_interrupt);
    (acc_input_handler, fatal_interrupt);
    (timer_overflow_handler, fatal_interrupt);
    (output5_handler, fatal_interrupt);
    (output3_handler, fatal_interrupt);
    (output2_handler, fatal_interrupt);
    (output1_handler, fatal_interrupt);
    (capture3_handler, fatal_interrupt);
    (capture2_handler, fatal_interrupt);
    (capture1_handler, fatal_interrupt);
    (rtii_handler, fatal_interrupt);
    (irq_handler, fatal_interrupt);
    (xirq_handler, fatal_interrupt);
    (swi_handler, fatal_interrupt);
    (illegal_handler, fatal_interrupt);
    (cop_fail_handler, fatal_interrupt);
    (cop_clock_handler, fatal_interrupt);
    (output4_handler, output_compare_interrupt);
    (reset_handler, _start) ].

Definition field_eq_dec (a b : field) : {a = b} + {a <> b}.
Proof. decide equality. Defined.

(** The value of a field after the initialiser: the last designator for
    the field wins, a field without designator is left null ([None]). *)
Fixpoint designated (f : field) (init : list (field * handler))
  : option handler :=
  match init with
  | [] => None
  | (g, h) :: init' =>
      match designated f init' with
      | Some h' => Some h'
      | None => if field_eq_dec f g then Some h else None
      end
  end.

Definition vector (f : field) : option handler := designated f vectors.

End InterruptTable.

(** ** Instances

    The statements below hold for any register map.  Their instances are
    taken on the map of the 68HC11 timer (TFLG1 at 0x23 and its
    OC4F bit 0x10, TCTL1 at 0x20 and OL4 0x04, TMSK1 at 0x22 and OC4I 0x10)
    and on concrete hardware states, states and schedules. *)

Module HC11.

Definition TFLG1 : Z := 35.
Definition OC4F : Z := 16.
Definition TCTL1 : Z := 32.
Definition OL4 : Z := 4.
Definition TMSK1 : Z := 34.
Definition OC4I : Z := 16.
Definition OUTPUT4_VECTOR : Z := 17.

(** The hardware soon after a match, no other flag pending. *)
Definition hw_early : hardware :=
  mkHardware (fun a => if a =? TFLG1 then 16 else 0) 100.

(** The hardware long after a match, every timer flag pending. *)
Definition hw_late : hardware := mkHardware (fun _ => 255) 60000.

(** A state after the set-up, with a change time close to the wrap. *)
Definition s_armed : state := mkState hw_early false 0 0 65000 [].

(** The same change time and cursor in otherwise different surroundings. *)
Definition s_armed' : state := mkState hw_late true 0 1 65000 [Lock].

(** Two interrupts serviced before every third step of [main], none
    before the others. *)
Definition every_third : schedule :=
  fun t => if (t mod 3 =? 0)%nat then [hw_early; hw_late] else [].

(** No interrupt at all. *)
Definition never : schedule := fun _ => [].

End HC11.

(** ** The program *)

Section Program.

(** Constants of <sys/ports.h> and <sys/interrupts.h>. *)
Variables M6811_TFLG1 M6811_OC4F : Z.
Variables M6811_TCTL1 M6811_OL4 : Z.
Variables M6811_TMSK1 M6811_OC4I : Z.
Variable TIMER_OUTPUT4_VECTOR : Z.

(** [void output_compare_interrupt (void)] *)
Definition output_compare_interrupt : M unit :=
  (* _io_ports[M6811_TFLG1] |= M6811_OC4F; *)
  f <- io_read M6811_TFLG1 ;;
  io_write M6811_TFLG1 (Z.lor f M6811_OC4F) ;;
  (* dt = *cycle_next; *)
  dt <- load_cycle_next ;;
  (* dt += change_time; *)
  ct <- get_change_time ;;
  let dt := ushort (dt + ct) in
  (* set_output_compare_4 (dt); change_time = dt; *)
  set_output_compare_4 dt ;;
  put_change_time dt ;;
  (* cycle_next++; *)
  p <- get_cycle_next ;;
  put_cycle_next (p + 1) ;;
  (* if (cycle_next >= &cycle_table[TABLE_SIZE (cycle_table)])
       cycle_next = cycle_table; *)
  p <- get_cycle_next ;;
  (if p >=? TABLE_SIZE cycle_table then put_cycle_next 0 else ret tt) ;;
  (* wakeup = 1; *)
  put_wakeup 1.

(** The part of [main] before the [for] loop. *)
Definition main_setup : M unit :=
  lock ;;
  serial_init ;;
  set_interrupt_handler TIMER_OUTPUT4_VECTOR ;;
  (* cycle_next = cycle_table; *)
  put_cycle_next 0 ;;
  io_write M6811_TCTL1 M6811_OL4 ;;
  io_write M6811_TMSK1 M6811_OC4I ;;
  (* change_time = get_timer_counter () + 300; *)
  t <- get_timer_counter ;;
  put_change_time (ushort (t + 300)) ;;
  (* set_output_compare_4 (change_time); *)
  ct <- get_change_time ;;
  set_output_compare_4 ct ;;
  unlock.

(** Program points of [main] and its locals. *)
Inductive label : Type :=
| L_entry
| L_for_test
| L_clear
| L_spin
| L_body
| L_return (r : Z).

Record cpu : Type := mkCpu {
  mem : state;
  pc : label;
  j : Z;
  c : Z;
  i : Z
}.

(** The character sent when [c] reaches 128: ["-\\|/"[(++i) & 3]], where
    [i'] is the value of [i] after the increment. *)
Definition spinner (i' : Z) : ascii :=
  match String.get (Z.to_nat (Z.land i' 3)) "-\|/" with
  | Some ch => ch
  | None => zero
  end.

(** The [for] body after the wait. *)
Definition heartbeat (m : cpu) : option cpu :=
  (* c++; *)
  let c' := uchar (c m + 1) in
  if c' =? 1 then
    (* serial_send ('\b'); *)
    match serial_send (ascii_of_nat 8) (mem m) with
    | Some (_, s') => Some (mkCpu s' L_for_test (ushort (j m + 1)) c' (i m))
    | None => None
    end
  else if c' =? 128 then
    (* serial_send ("-\\|/"[(++i) & 3]); *)
    let i' := uchar (i m + 1) in
    match serial_send (spinner i') (mem m) with
    | Some (_, s') => Some (mkCpu s' L_for_test (ushort (j m + 1)) c' i')
    | None => None
    end
  else Some (mkCpu (mem m) L_for_test (ushort (j m + 1)) c' (i m)).

(** One step of [int main ()], from one program point to the next. *)
Definition main_step (m : cpu) : option cpu :=
  match pc m with
  | L_entry =>
      (* unsigned char c = 0; unsigned char i = 0; set-up; j = 0 *)
      match main_setup (mem m) with
      | Some (_, s') => Some (mkCpu s' L_for_test 0 0 0)
      | None => None
      end
  | L_for_test =>
      (* j < 1000 *)
      if j m <? 1000 then Some (mkCpu (mem m) L_clear (j m) (c m) (i m))
      else Some (mkCpu (mem m) (L_return 0) (j m) (c m) (i m))
  | L_clear =>
      (* wakeup = 0; *)
      match put_wakeup 0 (mem m) with
      | Some (_, s') => Some (mkCpu s' L_spin (j m) (c m) (i m))
      | None => None
      end
  | L_spin =>
      (* while (wakeup == 0) continue; *)
      if wakeup (mem m) =? 0 then Some m
      else Some (mkCpu (mem m) L_body (j m) (c m) (i m))
  | L_body => heartbeat m
  | L_return _ => Some m
  end.

(** ** Interrupts

    The handler runs to completion between two steps of [main], and only
    while interrupts are unmasked.  The hardware registers it finds are
    whatever the hardware holds at the time the interrupt is serviced. *)

Definition deliver (h : hardware) (m : cpu) : option cpu :=
  if locked (mem m) then Some m
  else match output_compare_interrupt (set_hw h (mem m)) with
       | Some (_, s') => Some (mkCpu s' (pc m) (j m) (c m) (i m))
       | None => None
       end.

Fixpoint service (hs : list hardware) (m : cpu) : option cpu :=
  match hs with
  | [] => Some m
  | h :: hs' =>
      match deliver h m with
      | Some m' => service hs' m'
      | None => None
      end
  end.

Definition tick (sched : schedule) (t : nat) (m : cpu) : option cpu :=
  match pc m with
  | L_return _ => Some m
  | _ =>
      match service (sched t) m with
      | Some m' => main_step m'
      | None => None
      end
  end.

Fixpoint run (sched : schedule) (n : nat) (t : nat) (m : cpu) : option cpu :=
  match n with
  | O => Some m
  | S n' => match tick sched t m with
            | Some m' => run sched n' (S t) m'
            | None => None
            end
  end.

(** [main] is entered with interrupts masked (the state of the processor
    after reset); globals and locals hold whatever the caller passes. *)
Definition main_entry (h : hardware) (p w ct : Z) (j0 c0 i0 : Z) : cpu :=
  mkCpu (mkState h true p w ct []) L_entry j0 c0 i0.

(** Consecutive invocations of the handler, each one finding the hardware
    in the state given by the list (one element per invocation). *)
Fixpoint interrupts (hs : list hardware) (s : state) : option state :=
  match hs with
  | [] => Some s
  | h :: hs' =>
      match output_compare_interrupt (set_hw h s) with
      | Some (_, s') => interrupts hs' s'
      | None => None
      end
  end.

(** ** Vocabulary of the statements *)

Definition in_table (p : Z) : Prop := 0 <= p < TABLE_SIZE cycle_table.

(** The cursor after one invocation that found it at [p]. *)
Definition next_offset (p : Z) : Z :=
  if p + 1 >=? TABLE_SIZE cycle_table then 0 else p + 1.

(** The events of one invocation that found the flag register at [f], the
    cursor at [p] and the change time at [ct]. *)
Definition handler_events (f p ct : Z) : list event :=
  [ IoRead M6811_TFLG1 (uchar f);
    IoWrite M6811_TFLG1 (uchar (Z.lor (uchar f) M6811_OC4F));
    ReadCycleTable p (table_at p);
    SetOutputCompare4 (ushort (table_at p + ct));
    StoreChangeTime (ushort (table_at p + ct));
    StoreCycleNext (p + 1) ]
  ++ (if p + 1 >=? TABLE_SIZE cycle_table then [StoreCycleNext 0] else [])
  ++ [ StoreWakeup 1 ].

(** The compare values of [n] invocations that start with the cursor at
    [p] and the change time at [ct]. *)
Fixpoint targets (n : nat) (p ct : Z) : list Z :=
  match n with
  | O => []
  | S n' =>
      let v := ushort (table_at p + ct) in
      v :: targets n' (next_offset p) v
  end.

(** The ticks that [n] invocations add to the change time, starting with
    the cursor at [p]. *)
Fixpoint elapsed (n : nat) (p : Z) : Z :=
  match n with
  | O => 0
  | S n' => table_at p + elapsed n' (next_offset p)
  end.

(** The durations read by [n] invocations, starting with the cursor at
    [p]. *)
Fixpoint durations (n : nat) (p : Z) : list Z :=
  match n with
  | O => []
  | S n' => ushort (table_at p) :: durations n' (next_offset p)
  end.

(** The events of the set-up of [main], from a state whose counter
    reads [t]. *)
Definition setup_events (t : Z) : list event :=
  [ Lock; SerialInit; SetInterruptHandler TIMER_OUTPUT4_VECTOR;
    StoreCycleNext 0;
    IoWrite M6811_TCTL1 (uchar M6811_OL4);
    IoWrite M6811_TMSK1 (uchar M6811_OC4I);
    GetTimerCounter t;
    StoreChangeTime (ushort (t + 300));
    SetOutputCompare4 (ushort (t + 300));
    Unlock ].

(** After the set-up: interrupts are unmasked and the cursor is inside the
    table. *)
Definition running (m : cpu) : Prop :=
  pc m <> L_entry
  /\ locked (mem m) = false
  /\ in_table (cycle_next (mem m)).

(** A read through the cursor that is inside the table and returns the
    entry of the initialiser. *)
Definition read_ok (e : event) : Prop :=
  match e with
  | ReadCycleTable p v =>
      in_table p /\ nth_error cycle_table (Z.to_nat p) = Some v
  | _ => True
  end.

(** An interrupt is serviced at any time or later: interrupts never stop. *)
Definition fair (sched : schedule) : Prop :=
  forall t : nat, exists t' : nat, (t <= t')%nat /\ sched t' <> [].

(** Each wait eventually ends: whenever the execution that starts in [e]
    is at the spin on the flag, at time [t], an interrupt is serviced at
    that time or later.  Nothing is asked of the schedule at the times
    the program is not waiting. *)
Definition waits_end (sched : schedule) (e : cpu) : Prop :=
  forall (t : nat) (m : cpu),
    run sched t 0 e = Some m ->
    pc m = L_spin ->
    exists d : nat, sched (t + d)%nat <> [].

(** What the loop of [main] keeps for itself. *)
Definition obs (m : cpu) : Z * Z * Z * list ascii * nat :=
  (j m, c m, i m, serial_output (trace (mem m)),
   wakeup_stores 0 (trace (mem m))).

(** The number of interrupts serviced so far. *)
Definition fired (m : cpu) : nat := wakeup_stores 1 (trace (mem m)).

(** The characters sent by one pass through the body that starts with
    the locals [c] and [i], and the value of [i] after it. *)
Definition beat (vc vi : Z) : list ascii :=
  if uchar (vc + 1) =? 1 then [ascii_of_nat 8]
  else if uchar (vc + 1) =? 128 then [spinner (uchar (vi + 1))]
  else [].

Definition next_i (vc vi : Z) : Z :=
  if uchar (vc + 1) =? 1 then vi
  else if uchar (vc + 1) =? 128 then uchar (vi + 1)
  else vi.

Fixpoint heartbeats (n : nat) (vc vi : Z) : list ascii :=
  match n with
  | O => []
  | S n' => beat vc vi ++ heartbeats n' (uchar (vc + 1)) (next_i vc vi)
  end.

(** The locals [c] and [i] after [n] passes through the body. *)
Fixpoint locals_after (n : nat) (vc vi : Z) : Z * Z :=
  match n with
  | O => (vc, vi)
  | S n' => locals_after n' (uchar (vc + 1)) (next_i vc vi)
  end.

(** The calls of the set-up recorded in a trace, in order. *)
Fixpoint setup_calls (tr : list event) : list event :=
  match tr with
  | [] => []
  | Lock :: tr' => Lock :: setup_calls tr'
  | Unlock :: tr' => Unlock :: setup_calls tr'
  | SerialInit :: tr' => SerialInit :: setup_calls tr'
  | SetInterruptHandler v :: tr' => SetInterruptHandler v :: setup_calls tr'
  | GetTimerCounter v :: tr' => GetTimerCounter v :: setup_calls tr'
  | _ :: tr' => setup_calls tr'
  end.

(** The accesses to [_io_ports] recorded in a trace, as (address, value)
    pairs, in order. *)
Fixpoint io_accesses (tr : list event) : list (Z * Z) :=
  match tr with
  | [] => []
  | IoRead a v :: tr' => (a, v) :: io_accesses tr'
  | IoWrite a v :: tr' => (a, v) :: io_accesses tr'
  | _ :: tr' => io_accesses tr'
  end.

(** An event of the handler or of the driver loop, with its operands in
    the range of their C types. *)
Definition loop_event (e : event) : Prop :=
  match e with
  | IoRead a v => a = M6811_TFLG1 /\ 0 <= v < 256
  | IoWrite a v => a = M6811_TFLG1 /\ 0 <= v < 256
  | ReadCycleTable p v => in_table p /\ v = table_at p
  | SetOutputCompare4 v => 0 <= v < 65536
  | StoreChangeTime v => 0 <= v < 65536
  | StoreCycleNext p => 0 <= p <= TABLE_SIZE cycle_table
  | StoreWakeup v => v = 0 \/ v = 1
  | SerialSend _ => True
  | Lock | Unlock | SerialInit => False
  | SetInterruptHandler _ => False
  | GetTimerCounter _ => False
  end.

(** The invariant of the driver loop, at every program point after the
    set-up: [j] counts the completed iterations, [c] and [i] follow from
    it, the serial output is the one of [j] iterations, the flag was
    cleared once per iteration begun, and no iteration was completed
    without an interrupt. *)
Definition loop_inv (m : cpu) : Prop :=
  running m
  /\ 0 <= j m <= 1000
  /\ c m = j m mod 256
  /\ i m = (j m + 128) / 256
  /\ 0 <= change_time (mem m) < 65536
  /\ serial_output (trace (mem m)) = heartbeats (Z.to_nat (j m)) 0 0
  /\ match pc m with
     | L_entry => False
     | L_for_test =>
         wakeup_stores 0 (trace (mem m)) = Z.to_nat (j m)
         /\ j m <= Z.of_nat (fired m)
     | L_clear =>
         wakeup_stores 0 (trace (mem m)) = Z.to_nat (j m)
         /\ j m <= Z.of_nat (fired m)
         /\ j m < 1000
     | L_spin =>
         wakeup_stores 0 (trace (mem m)) = S (Z.to_nat (j m))
         /\ j m <= Z.of_nat (fired m)
         /\ j m < 1000
         /\ wakeup (mem m) = 0
     | L_body =>
         wakeup_stores 0 (trace (mem m)) = S (Z.to_nat (j m))
         /\ j m + 1 <= Z.of_nat (fired m)
         /\ j m < 1000
     | L_return r =>
         r = 0
         /\ j m = 1000
         /\ wakeup_stores 0 (trace (mem m)) = 1000%nat
         /\ 1000 <= Z.of_nat (fired m)
     end.

(** The invariant of the timing engine in an execution whose set-up
    programmed [ct0]: [k] interrupts were serviced, the compare register
    was programmed with [ct0] and then with the [k] values that follow it,
    the cursor is [k] modulo the table size and the change time is the
    last value programmed. *)
Definition engine_inv (ct0 : Z) (k : nat) (m : cpu) : Prop :=
  running m
  /\ programmed (trace (mem m)) = ct0 :: targets k 0 ct0
  /\ cycle_next (mem m) = Z.of_nat k mod 12
  /\ change_time (mem m) = last (targets k 0 ct0) ct0
  /\ wakeup_stores 1 (trace (mem m)) = k.

(** Interrupts are never more than [G] steps apart. *)
Definition gap_bounded (G : nat) (sched : schedule) : Prop :=
  forall t : nat, exists d : nat, (d <= G)%nat /\ sched (t + d)%nat <> [].

(** ** Basic facts *)

Lemma table_size : TABLE_SIZE cycle_table = 12.
Proof. reflexivity. Qed.

Lemma in_table_range (p : Z) : in_table p -> 0 <= p < 12.
Proof. unfold in_table. rewrite table_size. trivial. Qed.

Lemma nth_error_table (p : Z) :
  in_table p -> nth_error cycle_table (Z.to_nat p) = Some (table_at p).
Proof.
  intros [Hlo Hhi]. unfold table_at.
  apply nth_error_nth'. rewrite table_size in Hhi.
  change (List.length cycle_table) with 12%nat. lia.
Qed.

Lemma in_table_test (p : Z) :
  in_table p -> (0 <=? p) && (p <? TABLE_SIZE cycle_table) = true.
Proof.
  intros [Hlo Hhi]. apply andb_true_iff. split.
  - now apply Z.leb_le.
  - now apply Z.ltb_lt.
Qed.

Lemma next_offset_in_table (p : Z) : in_table p -> in_table (next_offset p).
Proof.
  unfold in_table, next_offset. rewrite table_size. intros Hp.
  destruct (p + 1 >=? 12) eqn:E; [lia|].
  rewrite Z.geb_leb in E. apply Z.leb_gt in E. lia.
Qed.

Lemma next_offset_mod (p : Z) : in_table p -> next_offset p = (p + 1) mod 12.
Proof.
  unfold in_table, next_offset. rewrite table_size. intros Hp.
  destruct (p + 1 >=? 12) eqn:E; rewrite Z.geb_leb in E.
  - apply Z.leb_le in E. assert (p = 11) by lia. subst p. reflexivity.
  - apply Z.leb_gt in E. symmetry. apply Z.mod_small. lia.
Qed.

(** What one invocation of the handler does to a state whose cursor is
    inside the table. *)
Lemma handler_step (s : state) :
  in_table (cycle_next s) ->
  output_compare_interrupt s =
  Some (tt,
        mkState
          (mkHardware
             (poke (_io_ports (hw s)) M6811_TFLG1
                (uchar (Z.lor (uchar (_io_ports (hw s) M6811_TFLG1))
                              M6811_OC4F)))
             (TCNT (hw s)))
          (locked s)
          (next_offset (cycle_next s))
          1
          (ushort (table_at (cycle_next s) + change_time s))
          (trace s ++ handler_events (_io_ports (hw s) M6811_TFLG1)
                                     (cycle_next s) (change_time s))).
Proof.
  intros Hp. destruct s as [h l p w ct tr]. simpl in *.
  unfold output_compare_interrupt, bind, io_read, io_write, load_cycle_next,
    get_change_time, set_output_compare_4, put_change_time, get_cycle_next,
    put_cycle_next, put_wakeup, emit, ret, set_hw, handler_events, next_offset.
  simpl.
  rewrite (in_table_test p Hp), (nth_error_table p Hp). simpl.
  destruct (p + 1 >=? TABLE_SIZE cycle_table); simpl;
    repeat rewrite <- app_assoc; reflexivity.
Qed.

(** Outside the table the read through the cursor is undefined. *)
Lemma handler_undefined (s : state) :
  ~ in_table (cycle_next s) -> output_compare_interrupt s = None.
Proof.
  intros Hp. destruct s as [h l p w ct tr]. simpl in *.
  unfold output_compare_interrupt, bind, io_read, io_write, load_cycle_next,
    emit, ret, set_hw. simpl.
  destruct ((0 <=? p) && (p <? TABLE_SIZE cycle_table)) eqn:E; [|reflexivity].
  apply andb_true_iff in E. destruct E as [E1 E2].
  apply Z.leb_le in E1. apply Z.ltb_lt in E2. exfalso. apply Hp.
  split; assumption.
Qed.

(** ** Observations distribute over concatenation *)

Lemma programmed_app (a b : list event) :
  programmed (a ++ b) = programmed a ++ programmed b.
Proof.
  induction a as [|e a IH]; simpl; [reflexivity|].
  destruct e; simpl; rewrite IH; reflexivity.
Qed.

Lemma serial_output_app (a b : list event) :
  serial_output (a ++ b) = serial_output a ++ serial_output b.
Proof.
  induction a as [|e a IH]; simpl; [reflexivity|].
  destruct e; simpl; rewrite IH; reflexivity.
Qed.

Lemma counter_reads_app (a b : list event) :
  counter_reads (a ++ b) = counter_reads a ++ counter_reads b.
Proof.
  induction a as [|e a IH]; simpl; [reflexivity|].
  destruct e; simpl; rewrite IH; reflexivity.
Qed.

Lemma engine_stores_app (a b : list event) :
  engine_stores (a ++ b) = engine_stores a ++ engine_stores b.
Proof.
  induction a as [|e a IH]; simpl; [reflexivity|].
  destruct e; simpl; rewrite IH; reflexivity.
Qed.

Lemma wakeup_stores_app (v : Z) (a b : list event) :
  wakeup_stores v (a ++ b) = (wakeup_stores v a + wakeup_stores v b)%nat.
Proof.
  induction a as [|e a IH]; simpl; [reflexivity|].
  destruct e; simpl; try exact IH.
  destruct (v0 =? v); simpl; rewrite IH; reflexivity.
Qed.

Lemma setup_calls_app (a b : list event) :
  setup_calls (a ++ b) = setup_calls a ++ setup_calls b.
Proof.
  induction a as [|e a IH]; simpl; [reflexivity|].
  destruct e; simpl; rewrite IH; reflexivity.
Qed.

Lemma io_accesses_app (a b : list event) :
  io_accesses (a ++ b) = io_accesses a ++ io_accesses b.
Proof.
  induction a as [|e a IH]; simpl; [reflexivity|].
  destruct e; simpl; rewrite IH; reflexivity.
Qed.

Lemma programmed_handler_events (f p ct : Z) :
  programmed (handler_events f p ct) = [ushort (table_at p + ct)].
Proof.
  unfold handler_events. simpl.
  destruct (p + 1 >=? TABLE_SIZE cycle_table); reflexivity.
Qed.

Lemma serial_output_handler_events (f p ct : Z) :
  serial_output (handler_events f p ct) = [].
Proof.
  unfold handler_events. simpl.
  destruct (p + 1 >=? TABLE_SIZE cycle_table); reflexivity.
Qed.

Lemma counter_reads_handler_events (f p ct : Z) :
  counter_reads (handler_events f p ct) = [].
Proof.
  unfold handler_events. simpl.
  destruct (p + 1 >=? TABLE_SIZE cycle_table); reflexivity.
Qed.

Lemma wakeup_clears_handler_events (f p ct : Z) :
  wakeup_stores 0 (handler_events f p ct) = O.
Proof.
  unfold handler_events. simpl.
  destruct (p + 1 >=? TABLE_SIZE cycle_table); reflexivity.
Qed.

Lemma wakeup_sets_handler_events (f p ct : Z) :
  wakeup_stores 1 (handler_events f p ct) = 1%nat.
Proof.
  unfold handler_events. simpl.
  destruct (p + 1 >=? TABLE_SIZE cycle_table); reflexivity.
Qed.

(** ** Sequences of interrupts *)

Lemma targets_length (n : nat) (p ct : Z) : List.length (targets n p ct) = n.
Proof.
  revert p ct. induction n as [|n IH]; intros p ct; simpl; [reflexivity|].
  now rewrite IH.
Qed.

Lemma shift_mod (p k : Z) :
  ((p + 1) mod 12 + k) mod 12 = (p + (k + 1)) mod 12.
Proof.
  rewrite Zplus_mod_idemp_l. f_equal. lia.
Qed.

(** The recurrence of the claim, for a cursor that starts anywhere inside
    the table. *)
Lemma targets_nth (n : nat) :
  forall (p ct : Z) (k : nat),
    in_table p -> (k < n)%nat ->
    nth k (targets n p ct) 0 =
    ushort (nth k (ct :: targets n p ct) 0
            + table_at ((p + Z.of_nat k) mod 12)).
Proof.
  induction n as [|n IH]; intros p ct k Hp Hk; [lia|].
  destruct k as [|k].
  - simpl. rewrite Z.add_0_r, Z.mod_small by (apply in_table_range; exact Hp).
    f_equal. lia.
  - cbn [targets nth].
    rewrite (IH (next_offset p) (ushort (table_at p + ct)) k
               (next_offset_in_table p Hp)) by lia.
    do 3 f_equal.
    rewrite (next_offset_mod p Hp), shift_mod.
    f_equal. lia.
Qed.

Lemma last_cons (x d : Z) (l : list Z) : last (x :: l) d = last l x.
Proof.
  revert x d. induction l as [|y l IH]; intros x d; [reflexivity|].
  change (last (x :: y :: l) d) with (last (y :: l) d).
  rewrite (IH y d), (IH y x). reflexivity.
Qed.

Lemma interrupts_run (hs : list hardware) :
  forall s : state,
    in_table (cycle_next s) ->
    exists s' : state,
      interrupts hs s = Some s'
      /\ programmed (trace s') =
         programmed (trace s)
         ++ targets (List.length hs) (cycle_next s) (change_time s)
      /\ cycle_next s' = (cycle_next s + Z.of_nat (List.length hs)) mod 12
      /\ change_time s' =
         last (targets (List.length hs) (cycle_next s) (change_time s))
              (change_time s)
      /\ counter_reads (trace s') = counter_reads (trace s).
Proof.
  induction hs as [|h hs IH]; intros s Hp.
  - exists s. simpl. rewrite app_nil_r, Z.add_0_r.
    rewrite Z.mod_small by (apply in_table_range; exact Hp).
    repeat split; reflexivity.
  - simpl interrupts.
    rewrite (handler_step (set_hw h s) Hp).
    match goal with |- context [interrupts hs ?s1] => set (s1' := s1) end.
    destruct (IH s1' (next_offset_in_table _ Hp)) as (s' & Hr & Hpr & Hc & Ht & Hg).
    exists s'. split; [exact Hr|].
    subst s1'. simpl in Hpr, Hc, Ht, Hg.
    rewrite programmed_app, programmed_handler_events in Hpr.
    rewrite counter_reads_app, counter_reads_handler_events, app_nil_r in Hg.
    repeat split.
    + rewrite Hpr, <- app_assoc. reflexivity.
    + rewrite Hc, (next_offset_mod _ Hp), shift_mod.
      f_equal. simpl List.length. lia.
    + rewrite Ht. simpl List.length. symmetry.
      change (targets (S (List.length hs)) (cycle_next s) (change_time s))
        with (ushort (table_at (cycle_next s) + change_time s)
              :: targets (List.length hs) (next_offset (cycle_next s))
                   (ushort (table_at (cycle_next s) + change_time s))).
      apply last_cons.
    + exact Hg.
Qed.

Lemma ushort_add_l (a b : Z) : ushort (ushort a + b) = ushort (a + b).
Proof. unfold ushort. apply Zplus_mod_idemp_l. Qed.

Lemma ushort_delta (d ct : Z) : ushort (ushort (d + ct) - ct) = ushort d.
Proof.
  unfold ushort. rewrite Zminus_mod_idemp_l. f_equal. lia.
Qed.

Lemma targets_last (n : nat) :
  forall p ct : Z,
    ushort (last (targets n p ct) ct) = ushort (ct + elapsed n p).
Proof.
  induction n as [|n IH]; intros p ct.
  - simpl. now rewrite Z.add_0_r.
  - cbn [targets elapsed]. rewrite last_cons, IH, ushort_add_l.
    f_equal. lia.
Qed.

Lemma deltas_targets (n : nat) :
  forall p ct : Z, deltas ct (targets n p ct) = durations n p.
Proof.
  induction n as [|n IH]; intros p ct; [reflexivity|].
  cbn [targets deltas durations]. now rewrite ushort_delta, IH.
Qed.

Lemma in_table_0 : in_table 0.
Proof. unfold in_table. rewrite table_size. lia. Qed.

(** ** The timing engine *)

(** C1.  Over any number of consecutive invocations of the handler that
    start with the cursor on the first entry, whatever state the hardware
    is in when each interrupt is serviced, the handler runs, and the compare
    value programmed by invocation k+1 is the value programmed before it
    (the change time at start for k = 0) plus [cycle_table[k mod len]],
    modulo 2^16.  The change time after the last invocation is the last
    programmed value, and it is the initial change time plus the sum of
    the durations read, modulo 2^16: no drift accumulates. *)
Theorem compare_values_accumulate (hs : list hardware) (s : state) :
  cycle_next s = 0 ->
  exists (s' : state) (vs : list Z),
    interrupts hs s = Some s'
    /\ programmed (trace s') = programmed (trace s) ++ vs
    /\ List.length vs = List.length hs
    /\ (forall k : nat,
          (k < List.length hs)%nat ->
          nth k vs 0 =
          ushort (nth k (change_time s :: vs) 0
                  + table_at (Z.of_nat k mod TABLE_SIZE cycle_table)))
    /\ change_time s' = last vs (change_time s)
    /\ ushort (change_time s') =
       ushort (change_time s + elapsed (List.length hs) 0).
Proof.
  intros H0.
  assert (Hp : in_table (cycle_next s)) by (rewrite H0; exact in_table_0).
  destruct (interrupts_run hs s Hp) as (s' & Hr & Hpr & _ & Ht & _).
  rewrite H0 in Hpr, Ht.
  exists s', (targets (List.length hs) 0 (change_time s)).
  split; [exact Hr|]. split; [exact Hpr|].
  split; [apply targets_length|]. split.
  - intros k Hk. rewrite table_size.
    rewrite (targets_nth (List.length hs) 0 (change_time s) k in_table_0 Hk).
    reflexivity.
  - split; [exact Ht|]. rewrite Ht. apply targets_last.
Qed.

(** C2.  Starting with the cursor on the first entry, after M invocations
    of the handler the cursor is at offset M mod 12, for every M. *)
Theorem cursor_after_interrupts (hs : list hardware) (s : state) :
  cycle_next s = 0 ->
  exists s' : state,
    interrupts hs s = Some s'
    /\ cycle_next s' = Z.of_nat (List.length hs) mod TABLE_SIZE cycle_table.
Proof.
  intros H0.
  assert (Hp : in_table (cycle_next s)) by (rewrite H0; exact in_table_0).
  destruct (interrupts_run hs s Hp) as (s' & Hr & _ & Hc & _).
  exists s'. split; [exact Hr|].
  rewrite Hc, H0, table_size. reflexivity.
Qed.

Lemma in_table_dec (p : Z) : {in_table p} + {~ in_table p}.
Proof.
  unfold in_table.
  destruct (Z_le_dec 0 p) as [Hlo|Hlo];
    destruct (Z_lt_dec p (TABLE_SIZE cycle_table)) as [Hhi|Hhi];
    try (right; intros [? ?]; contradiction).
  left. split; assumption.
Qed.

(** C3.  Two runs of the same number of invocations that start with the
    same change time and the same cursor program the same sequence of
    compare values and end with the same change time and cursor, whatever
    the hardware registers (counter, flags) hold at each service and
    whatever the rest of the two states is; neither run reads the free
    running counter.  When the cursor is outside the table both runs are
    undefined. *)
Theorem compare_values_latency_independent (hs1 : list hardware) :
  forall (hs2 : list hardware) (s1 s2 : state),
    List.length hs1 = List.length hs2 ->
    change_time s1 = change_time s2 ->
    cycle_next s1 = cycle_next s2 ->
    match interrupts hs1 s1, interrupts hs2 s2 with
    | Some s1', Some s2' =>
        (exists vs : list Z,
            programmed (trace s1') = programmed (trace s1) ++ vs
            /\ programmed (trace s2') = programmed (trace s2) ++ vs)
        /\ change_time s1' = change_time s2'
        /\ cycle_next s1' = cycle_next s2'
        /\ counter_reads (trace s1') = counter_reads (trace s1)
        /\ counter_reads (trace s2') = counter_reads (trace s2)
    | None, None => True
    | _, _ => False
    end.
Proof.
  induction hs1 as [|h1 hs1 IH]; intros hs2 s1 s2 Hlen Hct Hcn.
  - destruct hs2 as [|h2 hs2]; [|discriminate Hlen].
    simpl. split; [exists []; now rewrite !app_nil_r|].
    repeat split; assumption.
  - destruct hs2 as [|h2 hs2]; [discriminate Hlen|].
    injection Hlen as Hlen. simpl interrupts.
    destruct (in_table_dec (cycle_next s1)) as [Hp|Hp].
    + assert (Hp2 : in_table (cycle_next s2)) by (rewrite <- Hcn; exact Hp).
      rewrite (handler_step (set_hw h1 s1) Hp), (handler_step (set_hw h2 s2) Hp2).
      match goal with
      | |- match interrupts hs1 ?a with _ => _ end =>
          match goal with
          | |- context [interrupts hs2 ?b] =>
              specialize (IH hs2 a b Hlen); set (a1 := a) in *; set (b1 := b) in *
          end
      end.
      assert (Hct1 : change_time a1 = change_time b1)
        by (subst a1 b1; simpl; now rewrite Hct, Hcn).
      assert (Hcn1 : cycle_next a1 = cycle_next b1)
        by (subst a1 b1; simpl; now rewrite Hcn).
      specialize (IH Hct1 Hcn1).
      destruct (interrupts hs1 a1) as [s1'|], (interrupts hs2 b1) as [s2'|];
        try exact IH.
      destruct IH as ((vs & Hv1 & Hv2) & Hc & Hn & Hg1 & Hg2).
      subst a1 b1. simpl in Hv1, Hv2, Hg1, Hg2.
      rewrite programmed_app, programmed_handler_events, <- app_assoc in Hv1, Hv2.
      rewrite counter_reads_app, counter_reads_handler_events, app_nil_r
        in Hg1, Hg2.
      split.
      * exists (ushort (table_at (cycle_next s1) + change_time s1) :: vs).
        split; [exact Hv1|]. rewrite Hv2, Hct, Hcn. reflexivity.
      * repeat split; assumption.
    + assert (Hp2 : ~ in_table (cycle_next s2)) by (rewrite <- Hcn; exact Hp).
      rewrite (handler_undefined (set_hw h1 s1) Hp),
        (handler_undefined (set_hw h2 s2) Hp2).
      exact I.
Qed.

(** C4.  The table holds exactly twice the microsecond values, which are
    1000, 1000, 1000, 2000, 2000, 10000, 200, 1000, 10000, 2000, 200, 200
    ticks; thirteen invocations that start with the cursor on the first
    entry program compare values whose successive differences are these
    twelve durations followed by 1000 again, and after the first twelve
    the cursor is back on the first entry. *)
Theorem table_durations_programmed (hs : list hardware) (s : state) :
  List.length hs = 13%nat ->
  cycle_next s = 0 ->
  cycle_table = map (fun us => 2 * us) cycle_table_us
  /\ cycle_table =
     [1000; 1000; 1000; 2000; 2000; 10000; 200; 1000; 10000; 2000; 200; 200]
  /\ (exists s12 : state,
         interrupts (firstn 12 hs) s = Some s12 /\ cycle_next s12 = 0)
  /\ (exists (s' : state) (vs : list Z),
         interrupts hs s = Some s'
         /\ programmed (trace s') = programmed (trace s) ++ vs
         /\ deltas (change_time s) vs = cycle_table ++ [1000]).
Proof.
  intros Hlen H0.
  assert (Hp : in_table (cycle_next s)) by (rewrite H0; exact in_table_0).
  split; [reflexivity|]. split; [reflexivity|]. split.
  - destruct (interrupts_run (firstn 12 hs) s Hp) as (s12 & Hr & _ & Hc & _).
    exists s12. split; [exact Hr|].
    rewrite Hc, H0, length_firstn, Hlen. reflexivity.
  - destruct (interrupts_run hs s Hp) as (s' & Hr & Hpr & _).
    exists s', (targets (List.length hs) (cycle_next s) (change_time s)).
    split; [exact Hr|]. split; [exact Hpr|].
    rewrite deltas_targets, Hlen, H0. reflexivity.
Qed.

(** ** The minimum duration *)

(** The pass does flag an entry below the threshold. *)
Example undersized_flags :
  undersized MIN_CYCLES [1000; 50; 200; 99] = [(1%nat, 50); (3%nat, 99)].
Proof. reflexivity. Qed.

(** C8.  The validation pass over the cycle table with the threshold of
    100 cycles flags nothing: every entry is at least 100 cycles (the
    smallest are the three entries of 200 cycles). *)
Theorem cycle_table_above_minimum :
  undersized MIN_CYCLES cycle_table = []
  /\ Forall (fun v => MIN_CYCLES <= v) cycle_table
  /\ Forall (fun v => 200 <= v) cycle_table
  /\ In 200 cycle_table.
Proof.
  split; [reflexivity|]. split; [|split].
  - unfold MIN_CYCLES. repeat (apply Forall_cons; [vm_compute; discriminate|]).
    apply Forall_nil.
  - repeat (apply Forall_cons; [vm_compute; discriminate|]).
    apply Forall_nil.
  - do 6 right. left. reflexivity.
Qed.

(** C5.  An invocation that finds the cursor inside the table performs,
    in this order and nothing else: the read-modify-write of the flag
    register that writes back a value with the OC4 flag bit set (which
    acknowledges the OC4 compare match), the read of the duration at the
    cursor, the programming of the compare register with duration plus
    change time, the store of the new change time, the advance of the
    cursor with its reset when it has passed the last entry, and last the
    store of 1 to the wakeup flag: the only store to the flag. *)
Theorem handler_order (s : state) :
  0 <= M6811_OC4F < 256 ->
  in_table (cycle_next s) ->
  let f := uchar (_io_ports (hw s) M6811_TFLG1) in
  let ack := uchar (Z.lor f M6811_OC4F) in
  let p := cycle_next s in
  let v := ushort (table_at p + change_time s) in
  exists s' : state,
    output_compare_interrupt s = Some (tt, s')
    /\ trace s' =
       trace s
       ++ [ IoRead M6811_TFLG1 f; IoWrite M6811_TFLG1 ack;
            ReadCycleTable p (table_at p);
            SetOutputCompare4 v; StoreChangeTime v;
            StoreCycleNext (p + 1) ]
       ++ (if p =? 11 then [StoreCycleNext 0] else [])
       ++ [ StoreWakeup 1 ]
    /\ Z.land ack M6811_OC4F = M6811_OC4F
    /\ wakeup s' = 1
    /\ (wakeup_stores 1 (trace s') = S (wakeup_stores 1 (trace s)))%nat
    /\ (wakeup_stores 0 (trace s') = wakeup_stores 0 (trace s))%nat.
Proof.
  intros HF Hp f ack p v.
  eexists. split; [apply (handler_step s Hp)|]. cbn [trace wakeup].
  assert (Hev : handler_events (_io_ports (hw s) M6811_TFLG1) p (change_time s)
                = [ IoRead M6811_TFLG1 f; IoWrite M6811_TFLG1 ack;
                    ReadCycleTable p (table_at p);
                    SetOutputCompare4 v; StoreChangeTime v;
                    StoreCycleNext (p + 1) ]
                  ++ (if p =? 11 then [StoreCycleNext 0] else [])
                  ++ [ StoreWakeup 1 ]).
  { unfold handler_events. rewrite table_size.
    apply in_table_range in Hp. fold p in Hp.
    replace (p + 1 >=? 12) with (p =? 11); [reflexivity|].
    rewrite Z.geb_leb.
    destruct (p =? 11) eqn:E1, (12 <=? p + 1) eqn:E2; try reflexivity.
    - apply Z.eqb_eq in E1. apply Z.leb_gt in E2. lia.
    - apply Z.eqb_neq in E1. apply Z.leb_le in E2. lia. }
  fold p. rewrite Hev. split; [reflexivity|]. split.
  - subst ack. unfold uchar at 1. change 256 with (2 ^ 8).
    rewrite <- Z.land_ones by lia.
    apply Z.bits_inj'. intros n Hn.
    rewrite !Z.land_spec, Z.lor_spec.
    destruct (Z.testbit M6811_OC4F n) eqn:E.
    + rewrite orb_true_r, andb_true_r. simpl.
      destruct (Z_lt_dec n 8) as [Hlt|Hge].
      * apply Z.ones_spec_low. lia.
      * exfalso.
        assert (Hz : Z.testbit M6811_OC4F n = false).
        { destruct (Z.eq_dec M6811_OC4F 0) as [->|Hnz];
            [apply Z.bits_0|].
          apply Z.bits_above_log2; [lia|].
          apply Z.log2_lt_pow2; [lia|].
          apply Z.lt_le_trans with (2 ^ 8); [simpl; lia|].
          apply Z.pow_le_mono_r; lia. }
        congruence.
    + apply andb_false_r.
  - split; [reflexivity|].
    rewrite !wakeup_stores_app. simpl.
    destruct (p =? 11); simpl; split; lia.
Qed.

(** ** Start-up *)

Lemma main_setup_step (s : state) :
  main_setup s =
  Some (tt,
        mkState
          (mkHardware
             (poke (poke (_io_ports (hw s)) M6811_TCTL1 (uchar M6811_OL4))
                   M6811_TMSK1 (uchar M6811_OC4I))
             (TCNT (hw s)))
          false 0 (wakeup s)
          (ushort (ushort (TCNT (hw s)) + 300))
          (trace s ++ setup_events (ushort (TCNT (hw s))))).
Proof.
  destruct s as [h l p w ct tr].
  cbv [main_setup bind lock serial_init set_interrupt_handler
    put_cycle_next io_write get_timer_counter put_change_time
    get_change_time set_output_compare_4 unlock emit ret set_hw
    setup_events hw locked cycle_next wakeup change_time trace
    _io_ports TCNT].
  repeat rewrite <- app_assoc. reflexivity.
Qed.

(** ** Invariants of the interleaved execution *)

Lemma read_ok_handler_events (f p ct : Z) :
  in_table p -> Forall read_ok (handler_events f p ct).
Proof.
  intros Hp. unfold handler_events.
  repeat (apply Forall_cons; [simpl; auto using nth_error_table|]).
  apply Forall_app. split.
  - destruct (p + 1 >=? TABLE_SIZE cycle_table); repeat constructor.
  - repeat constructor.
Qed.

Lemma read_ok_setup_events (t : Z) : Forall read_ok (setup_events t).
Proof. unfold setup_events. repeat constructor. Qed.

(** What the service of one interrupt changes. *)
Lemma deliver_running (h : hardware) (m : cpu) :
  running m ->
  exists m' : cpu,
    deliver h m = Some m'
    /\ running m'
    /\ pc m' = pc m /\ j m' = j m /\ c m' = c m /\ i m' = i m
    /\ wakeup (mem m') = 1
    /\ trace (mem m') =
       trace (mem m)
       ++ handler_events (_io_ports h M6811_TFLG1) (cycle_next (mem m))
            (change_time (mem m)).
Proof.
  intros (Hpc & Hl & Hp). unfold deliver. rewrite Hl.
  rewrite (handler_step (set_hw h (mem m)) Hp).
  eexists. split; [reflexivity|].
  cbn [mem pc j c i trace locked cycle_next wakeup set_hw change_time hw].
  split.
  { split; [exact Hpc|]. split; [exact Hl|].
    apply next_offset_in_table. exact Hp. }
  repeat (split; [reflexivity|]). reflexivity.
Qed.

(** What the service of the interrupts pending before a step changes. *)
Lemma service_running (hs : list hardware) :
  forall m : cpu,
    running m ->
    exists (m' : cpu) (evs : list event),
      service hs m = Some m'
      /\ running m'
      /\ pc m' = pc m /\ j m' = j m /\ c m' = c m /\ i m' = i m
      /\ trace (mem m') = trace (mem m) ++ evs
      /\ Forall read_ok evs
      /\ serial_output evs = []
      /\ wakeup_stores 0 evs = O
      /\ counter_reads evs = []
      /\ wakeup_stores 1 evs = List.length hs
      /\ (hs <> [] -> wakeup (mem m') = 1)
      /\ (hs = [] -> m' = m).
Proof.
  induction hs as [|h hs IH]; intros m Hr.
  - exists m, []. rewrite app_nil_r.
    split; [reflexivity|]. split; [exact Hr|].
    do 5 (split; [reflexivity|]).
    split; [constructor|].
    do 4 (split; [reflexivity|]).
    split; [intros H; now contradiction H|reflexivity].
  - destruct (deliver_running h m Hr)
      as (m1 & Hd & Hr1 & Hpc1 & Hj1 & Hc1 & Hi1 & Hw1 & Htr1).
    destruct (IH m1 Hr1)
      as (m2 & evs & Hs & Hr2 & Hpc2 & Hj2 & Hc2 & Hi2 & Htr2 & Hok & Hso
          & Hz & Hg & Hn & Hset & Hid).
    exists m2.
    exists (handler_events (_io_ports h M6811_TFLG1) (cycle_next (mem m))
              (change_time (mem m)) ++ evs).
    cbn [service]. rewrite Hd.
    split; [exact Hs|]. split; [exact Hr2|].
    split; [congruence|]. split; [congruence|].
    split; [congruence|]. split; [congruence|].
    split; [rewrite Htr2, Htr1; now rewrite app_assoc|].
    split.
    { apply Forall_app. split; [|exact Hok].
      apply read_ok_handler_events. apply Hr. }
    split; [now rewrite serial_output_app, serial_output_handler_events|].
    split; [now rewrite wakeup_stores_app, wakeup_clears_handler_events|].
    split; [now rewrite counter_reads_app, counter_reads_handler_events|].
    split.
    { rewrite wakeup_stores_app, wakeup_sets_handler_events, Hn. reflexivity. }
    split; [|intros H; discriminate H].
    intros _. destruct hs as [|h' hs'].
    + rewrite (Hid eq_refl). exact Hw1.
    + apply Hset. discriminate.
Qed.

(** A step of [main] out of the set-up leaves the change time and the
    cursor alone. *)
Lemma main_step_running (m : cpu) :
  pc m <> L_entry ->
  exists (m' : cpu) (evs : list event),
    main_step m = Some m'
    /\ pc m' <> L_entry
    /\ locked (mem m') = locked (mem m)
    /\ cycle_next (mem m') = cycle_next (mem m)
    /\ change_time (mem m') = change_time (mem m)
    /\ hw (mem m') = hw (mem m)
    /\ trace (mem m') = trace (mem m) ++ evs
    /\ Forall read_ok evs
    /\ engine_stores evs = []
    /\ programmed evs = []
    /\ counter_reads evs = [].
Proof.
  intros Hpc. destruct m as [s l vj vc vi]. simpl in Hpc.
  unfold main_step. simpl.
  destruct l; try (now contradiction Hpc).
  - destruct (vj <? 1000); eexists; exists []; simpl; rewrite app_nil_r;
      repeat split; auto; discriminate.
  - eexists. exists [StoreWakeup 0]. simpl.
    repeat split; auto; try discriminate. repeat constructor.
  - destruct (wakeup s =? 0); eexists; exists []; simpl; rewrite app_nil_r;
      repeat split; auto; discriminate.
  - unfold heartbeat. simpl.
    destruct (uchar (vc + 1) =? 1); [|destruct (uchar (vc + 1) =? 128)].
    + eexists. exists [SerialSend (ascii_of_nat 8)]. simpl.
      repeat split; auto; try discriminate. repeat constructor.
    + eexists. exists [SerialSend (spinner (uchar (vi + 1)))]. simpl.
      repeat split; auto; try discriminate. repeat constructor.
    + eexists. exists []. simpl. rewrite app_nil_r.
      repeat split; auto; discriminate.
  - eexists. exists []. simpl. rewrite app_nil_r.
    repeat split; auto.
Qed.

Lemma tick_running (sched : schedule) (t : nat) (m : cpu) :
  running m ->
  exists (m' : cpu) (evs : list event),
    tick sched t m = Some m'
    /\ running m'
    /\ trace (mem m') = trace (mem m) ++ evs
    /\ Forall read_ok evs
    /\ counter_reads evs = [].
Proof.
  intros Hr. unfold tick.
  destruct (service_running (sched t) m Hr)
    as (m1 & e1 & Hs & (Hpc1 & Hl1 & Hp1) & _ & _ & _ & _ & Ht1 & Hok1
        & _ & _ & Hg1 & _).
  destruct (main_step_running m1 Hpc1)
    as (m2 & e2 & Hm & Hpc2 & Hl2 & Hc2 & _ & _ & Ht2 & Hok2 & _ & _ & Hg2).
  assert (Hgo : exists (m' : cpu) (evs : list event),
             match service (sched t) m with
             | Some m0 => main_step m0
             | None => None
             end = Some m'
             /\ running m'
             /\ trace (mem m') = trace (mem m) ++ evs
             /\ Forall read_ok evs
             /\ counter_reads evs = []).
  { exists m2, (e1 ++ e2). rewrite Hs. split; [exact Hm|]. split.
    - split; [exact Hpc2|split; congruence].
    - split; [rewrite Ht2, Ht1; now rewrite app_assoc|].
      split; [apply Forall_app; split; assumption|].
      now rewrite counter_reads_app, Hg1, Hg2. }
  destruct (pc m) eqn:E; try exact Hgo.
  exists m, []. rewrite app_nil_r. repeat split; auto; apply Hr.
Qed.

Lemma run_running (sched : schedule) (n : nat) :
  forall (t : nat) (m : cpu),
    running m ->
    exists (m' : cpu) (evs : list event),
      run sched n t m = Some m'
      /\ running m'
      /\ trace (mem m') = trace (mem m) ++ evs
      /\ Forall read_ok evs
      /\ counter_reads evs = [].
Proof.
  induction n as [|n IH]; intros t m Hr.
  - exists m, []. rewrite app_nil_r. repeat split; auto; apply Hr.
  - simpl.
    destruct (tick_running sched t m Hr)
      as (m1 & e1 & Ht & Hr1 & Htr1 & Hok1 & Hg1).
    rewrite Ht.
    destruct (IH (S t) m1 Hr1) as (m2 & e2 & Hrun & Hr2 & Htr2 & Hok2 & Hg2).
    exists m2, (e1 ++ e2). split; [exact Hrun|]. split; [exact Hr2|].
    split; [rewrite Htr2, Htr1; now rewrite app_assoc|].
    split; [apply Forall_app; split; assumption|].
    now rewrite counter_reads_app, Hg1, Hg2.
Qed.

(** The first step of [main]: interrupts are masked, so the set-up runs
    undisturbed. *)
Lemma tick_entry (sched : schedule) (t : nat) (h : hardware)
      (p w ct j0 c0 i0 : Z) :
  exists m1 : cpu,
    tick sched t (main_entry h p w ct j0 c0 i0) = Some m1
    /\ running m1
    /\ pc m1 = L_for_test /\ j m1 = 0 /\ c m1 = 0 /\ i m1 = 0
    /\ cycle_next (mem m1) = 0
    /\ change_time (mem m1) = ushort (ushort (TCNT h) + 300)
    /\ trace (mem m1) = setup_events (ushort (TCNT h)).
Proof.
  eexists. split.
  - unfold tick, main_entry. cbn [pc].
    assert (Hs : forall o, service o (mkCpu (mkState h true p w ct []) L_entry j0 c0 i0)
                 = Some (mkCpu (mkState h true p w ct []) L_entry j0 c0 i0)).
    { intros o. induction o as [|h' o IHo]; [reflexivity|exact IHo]. }
    rewrite Hs. unfold main_step. cbn [pc mem].
    rewrite main_setup_step. reflexivity.
  - cbn [mem pc j c i trace cycle_next change_time locked hw TCNT app].
    split.
    { split; [discriminate|]. split; [reflexivity|exact in_table_0]. }
    repeat (split; [reflexivity|]). reflexivity.
Qed.

(** C6.  The set-up of [main] reads the counter once, stores that value
    plus 300 (in [unsigned short] arithmetic, so exactly plus 300 whenever
    the sum fits in 16 bits) in the change time and programs the compare
    register with the same value; in every execution of [main], under any
    schedule of interrupts, this is the first value written to the compare
    register and the counter is never read again. *)
Theorem first_compare_target (sched : schedule) (n : nat) (h : hardware)
        (p w ct j0 c0 i0 : Z) :
  let t := ushort (TCNT h) in
  exists m1 m : cpu,
    tick sched 0 (main_entry h p w ct j0 c0 i0) = Some m1
    /\ counter_reads (trace (mem m1)) = [t]
    /\ change_time (mem m1) = ushort (t + 300)
    /\ (t + 300 < 65536 -> change_time (mem m1) = t + 300)
    /\ programmed (trace (mem m1)) = [change_time (mem m1)]
    /\ run sched (S n) 0 (main_entry h p w ct j0 c0 i0) = Some m
    /\ hd_error (programmed (trace (mem m))) = Some (ushort (t + 300))
    /\ counter_reads (trace (mem m)) = [t].
Proof.
  intros t.
  destruct (tick_entry sched 0 h p w ct j0 c0 i0)
    as (m1 & Ht & Hr1 & _ & _ & _ & _ & _ & Hct & Htr).
  destruct (run_running sched n 1%nat m1 Hr1) as (m & evs & Hrun & _ & Htr' & _ & Hg).
  exists m1, m. fold t in Hct, Htr.
  split; [exact Ht|]. split; [rewrite Htr; reflexivity|].
  split; [exact Hct|]. split.
  - intros Hfit. rewrite Hct. unfold ushort at 1. apply Z.mod_small.
    assert (0 <= t) by (apply Z.mod_pos_bound; lia). lia.
  - split; [rewrite Htr, Hct; reflexivity|]. split.
    + simpl run. rewrite Ht. exact Hrun.
    + rewrite Htr', Htr, programmed_app, counter_reads_app, Hg.
      split; reflexivity.
Qed.

(** C7.  In every execution of [main], under any schedule of interrupts
    and after any number of steps, no read through the cursor has been
    undefined: the execution is defined, every read through the cursor
    recorded in the trace was inside the table and returned the entry
    there, and from the end of the set-up on the cursor is inside the
    table. *)
Theorem cursor_always_in_table (sched : schedule) (n : nat) (h : hardware)
        (p w ct j0 c0 i0 : Z) :
  exists m : cpu,
    run sched n 0 (main_entry h p w ct j0 c0 i0) = Some m
    /\ Forall read_ok (trace (mem m))
    /\ match n with
       | O => pc m = L_entry
       | S _ => in_table (cycle_next (mem m))
       end.
Proof.
  destruct n as [|n].
  - eexists. split; [reflexivity|]. split; [constructor|reflexivity].
  - destruct (tick_entry sched 0 h p w ct j0 c0 i0)
      as (m1 & Ht & Hr1 & _ & _ & _ & _ & _ & _ & Htr).
    destruct (run_running sched n 1%nat m1 Hr1)
      as (m & evs & Hrun & Hr & Htr' & Hok & _).
    exists m. split; [simpl run; rewrite Ht; exact Hrun|]. split.
    + rewrite Htr', Htr. apply Forall_app. split.
      * apply read_ok_setup_events.
      * exact Hok.
    + apply Hr.
Qed.

(** C9.  A step of [main] from any program point of the driver loop (the
    loop test, the clearing of the flag, the spin on the flag, the
    heartbeat) or after the return is defined and changes neither the
    change time nor the cursor, stores to neither of them and programs no
    compare value.  The cycle table is a constant of the program: no
    operation of the state monad can store to it. *)
Theorem driver_loop_preserves_engine_state (m : cpu) :
  pc m <> L_entry ->
  exists m' : cpu,
    main_step m = Some m'
    /\ change_time (mem m') = change_time (mem m)
    /\ cycle_next (mem m') = cycle_next (mem m)
    /\ engine_stores (trace (mem m')) = engine_stores (trace (mem m))
    /\ programmed (trace (mem m')) = programmed (trace (mem m)).
Proof.
  intros Hpc.
  destruct (main_step_running m Hpc)
    as (m' & evs & Hm & _ & _ & Hc & Hct & _ & Htr & _ & He & Hpr & _).
  exists m'. split; [exact Hm|]. split; [exact Hct|]. split; [exact Hc|].
  rewrite Htr, engine_stores_app, programmed_app, He, Hpr, !app_nil_r.
  split; reflexivity.
Qed.

(** ** The driver loop *)

Lemma run_app (sched : schedule) (a : nat) :
  forall (b t : nat) (m : cpu),
    run sched (a + b) t m =
    match run sched a t m with
    | Some m' => run sched b (t + a) m'
    | None => None
    end.
Proof.
  induction a as [|a IH]; intros b t m; simpl.
  - now rewrite Nat.add_0_r.
  - destruct (tick sched t m) as [m1|]; [|reflexivity].
    rewrite IH. now replace (S t + a)%nat with (t + S a)%nat by lia.
Qed.

Lemma service_obs (o : list hardware) (m : cpu) :
  running m ->
  exists m1 : cpu,
    service o m = Some m1
    /\ running m1
    /\ pc m1 = pc m
    /\ obs m1 = obs m
    /\ fired m1 = (fired m + List.length o)%nat
    /\ (o <> [] -> wakeup (mem m1) = 1)
    /\ (o = [] -> m1 = m).
Proof.
  intros Hr.
  destruct (service_running o m Hr)
    as (m1 & evs & Hs & Hr1 & Hpc & Hj & Hc & Hi & Htr & _ & Hso & Hw0 & _
        & Hw1 & Hset & Hid).
  exists m1. split; [exact Hs|]. split; [exact Hr1|]. split; [exact Hpc|].
  unfold obs, fired.
  rewrite Htr, serial_output_app, !wakeup_stores_app, Hso, Hw0, Hw1, Hj, Hc, Hi.
  rewrite app_nil_r, Nat.add_0_r. repeat split; assumption.
Qed.

Ltac tick_at sched t m Hr Hpc m1 :=
  let Hs := fresh "Hs" in
  let Hr1 := fresh "Hr" in
  let Hpc1 := fresh "Hpc" in
  destruct (service_obs (sched t) m Hr)
    as (m1 & Hs & Hr1 & Hpc1 & ?Hobs & ?Hf & ?Hset & ?Hid);
  unfold tick; rewrite Hpc, Hs; rewrite Hpc in Hpc1;
  unfold main_step; rewrite Hpc1.

Lemma tick_for_test (sched : schedule) (t : nat) (m : cpu) :
  running m -> pc m = L_for_test ->
  exists m' : cpu,
    tick sched t m = Some m'
    /\ running m'
    /\ pc m' = (if j m <? 1000 then L_clear else L_return 0)
    /\ obs m' = obs m
    /\ (fired m <= fired m')%nat.
Proof.
  intros Hr Hpc. tick_at sched t m Hr Hpc m1.
  unfold obs in Hobs. injection Hobs as Hj Hc Hi Hso Hw.
  rewrite Hj. destruct Hr0 as (_ & Hl & Hp).
  unfold obs, fired in *.
  destruct (j m <? 1000); eexists; (split; [reflexivity|]);
    cbn [mem pc j c i];
    (split; [split; [discriminate|split; [exact Hl|exact Hp]]|]);
    (split; [reflexivity|]);
    (split; [now rewrite Hc, Hi, Hso, Hw|lia]).
Qed.

Lemma tick_clear (sched : schedule) (t : nat) (m : cpu) :
  running m -> pc m = L_clear ->
  exists m' : cpu,
    tick sched t m = Some m'
    /\ running m'
    /\ pc m' = L_spin
    /\ wakeup (mem m') = 0
    /\ j m' = j m /\ c m' = c m /\ i m' = i m
    /\ serial_output (trace (mem m')) = serial_output (trace (mem m))
    /\ wakeup_stores 0 (trace (mem m')) = S (wakeup_stores 0 (trace (mem m)))
    /\ (fired m <= fired m')%nat.
Proof.
  intros Hr Hpc. tick_at sched t m Hr Hpc m1.
  unfold obs in Hobs. injection Hobs as Hj Hc Hi Hso Hw.
  destruct Hr0 as (_ & Hl & Hp).
  unfold put_wakeup. eexists. split; [reflexivity|]. cbn.
  split; [split; [discriminate|split; [exact Hl|exact Hp]]|].
  rewrite serial_output_app, wakeup_stores_app, app_nil_r.
  unfold fired in *. rewrite wakeup_stores_app. simpl.
  repeat split; try assumption; lia.
Qed.

Lemma tick_spin_fire (sched : schedule) (t : nat) (m : cpu) :
  running m -> pc m = L_spin -> sched t <> [] ->
  exists m' : cpu,
    tick sched t m = Some m'
    /\ running m'
    /\ pc m' = L_body
    /\ obs m' = obs m
    /\ (S (fired m) <= fired m')%nat.
Proof.
  intros Hr Hpc Hfire. tick_at sched t m Hr Hpc m1.
  rewrite (Hset Hfire). simpl.
  destruct Hr0 as (_ & Hl & Hp).
  eexists. split; [reflexivity|].
  split; [split; [discriminate|split; [exact Hl|exact Hp]]|].
  split; [reflexivity|]. split; [exact Hobs|].
  unfold fired in *. cbn [mem]. destruct (sched t); [now contradiction Hfire|simpl in *; lia].
Qed.

Lemma tick_spin_idle (sched : schedule) (t : nat) (m : cpu) :
  pc m = L_spin -> wakeup (mem m) = 0 -> sched t = [] ->
  tick sched t m = Some m.
Proof.
  intros Hpc Hw Hidle. unfold tick. rewrite Hpc, Hidle. simpl.
  unfold main_step. rewrite Hpc, Hw. reflexivity.
Qed.

Lemma tick_body (sched : schedule) (t : nat) (m : cpu) :
  running m -> pc m = L_body ->
  exists m' : cpu,
    tick sched t m = Some m'
    /\ running m'
    /\ pc m' = L_for_test
    /\ j m' = ushort (j m + 1)
    /\ c m' = uchar (c m + 1)
    /\ i m' = next_i (c m) (i m)
    /\ serial_output (trace (mem m')) =
       serial_output (trace (mem m)) ++ beat (c m) (i m)
    /\ wakeup_stores 0 (trace (mem m')) = wakeup_stores 0 (trace (mem m))
    /\ (fired m <= fired m')%nat.
Proof.
  intros Hr Hpc. tick_at sched t m Hr Hpc m1.
  unfold obs in Hobs. injection Hobs as Hj Hc Hi Hso Hw.
  destruct Hr0 as (_ & Hl & Hp).
  unfold heartbeat, next_i, beat, serial_send, emit. rewrite Hj, Hc, Hi.
  assert (Hle : (fired m <= fired m1)%nat) by lia. unfold fired in *.
  destruct (uchar (c m + 1) =? 1); [|destruct (uchar (c m + 1) =? 128)];
    (eexists; split; [reflexivity|]); cbn;
    (split; [split; [discriminate|split; [exact Hl|exact Hp]]|]);
    rewrite ?serial_output_app, ?wakeup_stores_app, ?app_nil_r; simpl;
    rewrite ?Nat.add_0_r; repeat split; try assumption; try congruence.
Qed.

(** The wait: the loop spins until the first time at which an interrupt is
    serviced, [d] steps ahead. *)
Lemma spin_until_fired (sched : schedule) (d : nat) :
  forall (t : nat) (m : cpu),
    running m -> pc m = L_spin -> wakeup (mem m) = 0 ->
    sched (t + d)%nat <> [] ->
    exists (n : nat) (m' : cpu),
      run sched n t m = Some m'
      /\ running m'
      /\ pc m' = L_body
      /\ obs m' = obs m
      /\ (S (fired m) <= fired m')%nat.
Proof.
  induction d as [|d IH]; intros t m Hr Hpc Hw Hfire.
  - rewrite Nat.add_0_r in Hfire.
    destruct (tick_spin_fire sched t m Hr Hpc Hfire)
      as (m' & Ht & Hr' & Hpc' & Hobs & Hf).
    exists 1%nat, m'. simpl. rewrite Ht. repeat split; auto; apply Hr'.
  - destruct (sched t) as [|h hs] eqn:E.
    + replace (t + S d)%nat with (S t + d)%nat in Hfire by lia.
      destruct (IH (S t) m Hr Hpc Hw Hfire) as (n & m' & Hrun & Hrest).
      exists (S n), m'. simpl.
      rewrite (tick_spin_idle sched t m Hpc Hw E). split; assumption.
    + assert (Hnow : sched t <> []) by (rewrite E; discriminate).
      destruct (tick_spin_fire sched t m Hr Hpc Hnow)
        as (m' & Ht & Hr' & Hpc' & Hobs & Hf).
      exists 1%nat, m'. simpl. rewrite Ht. repeat split; auto; apply Hr'.
Qed.

(** Schedules in which interrupts never stop end every wait. *)
Lemma fair_waits_end (sched : schedule) (e : cpu) :
  fair sched -> waits_end sched e.
Proof.
  intros Hfair t m _ _. destruct (Hfair t) as (t' & Hle & Hfire).
  exists (t' - t)%nat. now replace (t + (t' - t))%nat with t' by lia.
Qed.

(** One iteration of the [for] loop, from a state reached at time [t]. *)
Lemma loop_iteration (sched : schedule) (e : cpu) (t : nat) (m : cpu) :
  waits_end sched e ->
  run sched t 0 e = Some m ->
  running m -> pc m = L_for_test -> j m < 1000 ->
  exists (n : nat) (m' : cpu),
    run sched n t m = Some m'
    /\ running m'
    /\ pc m' = L_for_test
    /\ j m' = ushort (j m + 1)
    /\ c m' = uchar (c m + 1)
    /\ i m' = next_i (c m) (i m)
    /\ serial_output (trace (mem m')) =
       serial_output (trace (mem m)) ++ beat (c m) (i m)
    /\ wakeup_stores 0 (trace (mem m')) = S (wakeup_stores 0 (trace (mem m)))
    /\ (S (fired m) <= fired m')%nat.
Proof.
  intros Hwaits Hreach Hr Hpc Hj.
  destruct (tick_for_test sched t m Hr Hpc)
    as (m1 & Ht1 & Hr1 & Hpc1 & Hobs1 & Hf1).
  apply Z.ltb_lt in Hj. rewrite Hj in Hpc1.
  unfold obs in Hobs1. injection Hobs1 as Hj1 Hc1 Hi1 Hso1 Hw1.
  destruct (tick_clear sched (S t) m1 Hr1 Hpc1)
    as (m2 & Ht2 & Hr2 & Hpc2 & Hz2 & Hj2 & Hc2 & Hi2 & Hso2 & Hw2 & Hf2).
  assert (Hreach2 : run sched (S (S t)) 0 e = Some m2).
  { replace (S (S t)) with (t + 2)%nat by lia.
    rewrite run_app, Hreach. cbn [run Nat.add]. now rewrite Ht1, Ht2. }
  destruct (Hwaits (S (S t)) m2 Hreach2 Hpc2) as (d & Hfire).
  destruct (spin_until_fired sched d (S (S t)) m2 Hr2 Hpc2 Hz2 Hfire)
    as (n & m3 & Hrun3 & Hr3 & Hpc3 & Hobs3 & Hf3).
  unfold obs in Hobs3. injection Hobs3 as Hj3 Hc3 Hi3 Hso3 Hw3.
  destruct (tick_body sched (S (S t) + n) m3 Hr3 Hpc3)
    as (m4 & Ht4 & Hr4 & Hpc4 & Hj4 & Hc4 & Hi4 & Hso4 & Hw4 & Hf4).
  exists (S (S (n + 1))), m4. split.
  - cbn [run]. rewrite Ht1, Ht2, run_app, Hrun3. cbn [run]. now rewrite Ht4.
  - split; [exact Hr4|]. split; [exact Hpc4|].
    rewrite Hj4, Hc4, Hi4, Hso4, Hw4.
    rewrite Hj3, Hc3, Hi3, Hso3, Hw3.
    rewrite Hj2, Hc2, Hi2, Hso2, Hw2.
    rewrite Hj1, Hc1, Hi1, Hso1, Hw1.
    repeat split; try reflexivity. lia.
Qed.

(** The remaining [d] iterations of the loop and the return. *)
Lemma loop_to_return (sched : schedule) (e : cpu) (d : nat) :
  waits_end sched e ->
  forall (t : nat) (m : cpu),
    run sched t 0 e = Some m ->
    running m -> pc m = L_for_test ->
    j m = 1000 - Z.of_nat d -> (d <= 1000)%nat ->
    exists (n : nat) (m' : cpu),
      run sched n t m = Some m'
      /\ pc m' = L_return 0
      /\ j m' = 1000
      /\ serial_output (trace (mem m')) =
         serial_output (trace (mem m)) ++ heartbeats d (c m) (i m)
      /\ wakeup_stores 0 (trace (mem m')) =
         (wakeup_stores 0 (trace (mem m)) + d)%nat
      /\ (fired m + d <= fired m')%nat.
Proof.
  intros Hwaits. induction d as [|d IH]; intros t m Hreach Hr Hpc Hj Hd.
  - destruct (tick_for_test sched t m Hr Hpc)
      as (m1 & Ht1 & Hr1 & Hpc1 & Hobs1 & Hf1).
    simpl in Hj. rewrite Hj in Hpc1. simpl in Hpc1.
    unfold obs in Hobs1. injection Hobs1 as Hj1 Hc1 Hi1 Hso1 Hw1.
    exists 1%nat, m1. simpl. rewrite Ht1, app_nil_r.
    repeat split; try assumption; try congruence; lia.
  - assert (Hlt : j m < 1000) by lia.
    destruct (loop_iteration sched e t m Hwaits Hreach Hr Hpc Hlt)
      as (n1 & m1 & Hrun1 & Hr1 & Hpc1 & Hj1 & Hc1 & Hi1 & Hso1 & Hw1 & Hf1).
    assert (Hj1' : j m1 = 1000 - Z.of_nat d).
    { rewrite Hj1, Hj. unfold ushort. rewrite Z.mod_small; lia. }
    assert (Hreach1 : run sched (t + n1) 0 e = Some m1).
    { rewrite run_app, Hreach. exact Hrun1. }
    destruct (IH (t + n1)%nat m1 Hreach1 Hr1 Hpc1 Hj1' ltac:(lia))
      as (n2 & m2 & Hrun2 & Hpc2 & Hj2 & Hso2 & Hw2 & Hf2).
    exists (n1 + n2)%nat, m2. rewrite run_app, Hrun1.
    split; [exact Hrun2|]. split; [exact Hpc2|]. split; [exact Hj2|].
    rewrite Hso2, Hw2, Hso1, Hw1, Hc1, Hi1. cbn [heartbeats].
    rewrite <- app_assoc. repeat split; lia.
Qed.

(** ** Further properties of the table and of the handler *)

Lemma uchar_range (x : Z) : 0 <= uchar x < 256.
Proof. unfold uchar. apply Z.mod_pos_bound. lia. Qed.

Lemma ushort_range (x : Z) : 0 <= ushort x < 65536.
Proof. unfold ushort. apply Z.mod_pos_bound. lia. Qed.

Lemma uchar_land (x : Z) : uchar x = Z.land x (Z.ones 8).
Proof. unfold uchar. change 256 with (2 ^ 8). symmetry. apply Z.land_ones. lia. Qed.

(** X3.  The acknowledge is a read-modify-write: every flag read as pending
    from the flag register is written back set, together with the OC4
    flag, whatever the mask is.  This read and this write are the only
    accesses the handler itself makes to [_io_ports]; it sends nothing on
    the serial line, makes no call of the set-up and leaves the interrupt
    mask as it is. *)
Theorem handler_writes_back_flags_read (s : state) :
  in_table (cycle_next s) ->
  exists s' : state,
    output_compare_interrupt s = Some (tt, s')
    /\ let f := uchar (_io_ports (hw s) M6811_TFLG1) in
       let ack := uchar (Z.lor f M6811_OC4F) in
       io_accesses (trace s') =
       io_accesses (trace s) ++ [(M6811_TFLG1, f); (M6811_TFLG1, ack)]
       /\ Z.land ack f = f
       /\ serial_output (trace s') = serial_output (trace s)
       /\ setup_calls (trace s') = setup_calls (trace s)
       /\ locked s' = locked s.
Proof.
  intros Hp. eexists. split; [apply (handler_step s Hp)|].
  cbn [trace locked].
  rewrite io_accesses_app, serial_output_app, setup_calls_app,
    serial_output_handler_events, !app_nil_r.
  assert (Hev : forall f p ct,
             io_accesses (handler_events f p ct) =
             [(M6811_TFLG1, uchar f);
              (M6811_TFLG1, uchar (Z.lor (uchar f) M6811_OC4F))]
             /\ setup_calls (handler_events f p ct) = []).
  { intros f p ct. unfold handler_events. simpl.
    destruct (p + 1 >=? TABLE_SIZE cycle_table); split; reflexivity. }
  destruct (Hev (_io_ports (hw s) M6811_TFLG1) (cycle_next s) (change_time s))
    as (Hio & Hsc).
  rewrite Hio, Hsc, app_nil_r.
  split; [reflexivity|]. split.
  - rewrite !uchar_land. apply Z.bits_inj'. intros n Hn.
    rewrite !Z.land_spec, Z.lor_spec, !Z.land_spec.
    destruct (Z.testbit (_io_ports (hw s) M6811_TFLG1) n),
      (Z.testbit (Z.ones 8) n), (Z.testbit M6811_OC4F n); reflexivity.
  - repeat split; reflexivity.
Qed.

Lemma elapsed_add (a : nat) :
  forall (b : nat) (p : Z),
    elapsed (a + b) p = elapsed a p + elapsed b (Nat.iter a next_offset p).
Proof.
  induction a as [|a IH]; intros b p.
  - simpl. reflexivity.
  - rewrite Nat.iter_succ_r. cbn [Nat.add elapsed]. rewrite IH. lia.
Qed.

Lemma in_table_cases (p : Z) :
  in_table p ->
  p = 0 \/ p = 1 \/ p = 2 \/ p = 3 \/ p = 4 \/ p = 5
  \/ p = 6 \/ p = 7 \/ p = 8 \/ p = 9 \/ p = 10 \/ p = 11.
Proof. intros Hp. apply in_table_range in Hp. lia. Qed.

Lemma one_cycle (p : Z) :
  in_table p -> Nat.iter 12 next_offset p = p /\ elapsed 12 p = 30600.
Proof.
  intros Hp. apply in_table_cases in Hp.
  repeat (destruct Hp as [Hp|Hp]; [subst p; split; reflexivity|]).
  subst p. split; reflexivity.
Qed.

Lemma cycles_elapsed (k : nat) (p : Z) :
  in_table p -> elapsed (12 * k) p = 30600 * Z.of_nat k.
Proof.
  intros Hp. induction k as [|k IH].
  - reflexivity.
  - replace (12 * S k)%nat with (12 + 12 * k)%nat by lia.
    rewrite elapsed_add. destruct (one_cycle p Hp) as [Hi He].
    rewrite Hi, He, IH. lia.
Qed.

(** X2.  The period of the waveform.  From any cursor inside the table and any
    change time, 12 k invocations of the handler bring the cursor back
    where it was and advance the change time by k times 30600 ticks
    (15.3 ms), modulo 2^16, whatever the hardware holds at each
    service. *)
Theorem waveform_period (hs : list hardware) (k : nat) (s : state) :
  in_table (cycle_next s) ->
  List.length hs = (12 * k)%nat ->
  exists s' : state,
    interrupts hs s = Some s'
    /\ cycle_next s' = cycle_next s
    /\ ushort (change_time s') =
       ushort (change_time s + 30600 * Z.of_nat k).
Proof.
  intros Hp Hlen.
  destruct (interrupts_run hs s Hp) as (s' & Hr & _ & Hc & Ht & _).
  exists s'. split; [exact Hr|]. split.
  - rewrite Hc, Hlen. replace (Z.of_nat (12 * k)) with (Z.of_nat k * 12) by lia.
    rewrite Z.mod_add by lia. apply Z.mod_small. now apply in_table_range.
  - rewrite Ht, targets_last, Hlen, cycles_elapsed by exact Hp. reflexivity.
Qed.

(** ** The interrupt table *)

(** X11.  The initialiser of the interrupt table designates 32 fields,
    none of them twice, so no designator overrides another; it binds the
    OC4 vector to [output_compare_interrupt], the reset vector to
    [_start] and each of the thirty others to [fatal_interrupt], so
    [output_compare_interrupt] is reached by the OC4 vector only. *)
Theorem interrupt_table_bindings :
  NoDup (map fst InterruptTable.vectors)
  /\ List.length InterruptTable.vectors = 32%nat
  /\ (forall f : InterruptTable.field,
         InterruptTable.vector f =
         Some match f with
              | InterruptTable.output4_handler =>
                  InterruptTable.output_compare_interrupt
              | InterruptTable.reset_handler => InterruptTable._start
              | _ => InterruptTable.fatal_interrupt
              end)
  /\ (forall f : InterruptTable.field,
         InterruptTable.vector f = Some InterruptTable.output_compare_interrupt
         <-> f = InterruptTable.output4_handler).
Proof.
  split.
  { assert (H : nodup InterruptTable.field_eq_dec
                  (map fst InterruptTable.vectors)
                = map fst InterruptTable.vectors) by (vm_compute; reflexivity).
    rewrite <- H. apply NoDup_nodup. }
  split; [reflexivity|]. split.
  - intros f. destruct f; vm_compute; reflexivity.
  - intros f. split.
    + destruct f; vm_compute; intros H; try discriminate H; reflexivity.
    + intros ->. vm_compute. reflexivity.
Qed.

(** ** The invariant of the driver loop *)

Lemma locals_after_S (n : nat) :
  forall vc vi : Z,
    locals_after (S n) vc vi =
    (uchar (fst (locals_after n vc vi) + 1),
     next_i (fst (locals_after n vc vi)) (snd (locals_after n vc vi))).
Proof.
  induction n as [|n IH]; intros vc vi; [reflexivity|].
  change (locals_after (S (S n)) vc vi)
    with (locals_after (S n) (uchar (vc + 1)) (next_i vc vi)).
  rewrite IH. reflexivity.
Qed.

Lemma heartbeats_add (a : nat) :
  forall (b : nat) (vc vi : Z),
    heartbeats (a + b) vc vi =
    heartbeats a vc vi
    ++ heartbeats b (fst (locals_after a vc vi)) (snd (locals_after a vc vi)).
Proof.
  induction a as [|a IH]; intros b vc vi; [reflexivity|].
  cbn [Nat.add heartbeats locals_after]. rewrite IH, app_assoc. reflexivity.
Qed.

(** The locals in closed form, as long as [i] does not wrap. *)
Lemma locals_after_closed (n : nat) :
  (n <= 1000)%nat ->
  locals_after n 0 0 = (Z.of_nat n mod 256, (Z.of_nat n + 128) / 256).
Proof.
  induction n as [|n IH]; intros Hn; [reflexivity|].
  rewrite locals_after_S, IH by lia. cbn [fst snd].
  replace (Z.of_nat (S n)) with (Z.of_nat n + 1) by lia.
  assert (Hc : uchar (Z.of_nat n mod 256 + 1) = (Z.of_nat n + 1) mod 256).
  { unfold uchar. apply Zplus_mod_idemp_l. }
  f_equal; [exact Hc|].
  unfold next_i. rewrite Hc.
  destruct ((Z.of_nat n + 1) mod 256 =? 1) eqn:E1.
  - apply Z.eqb_eq in E1. Z.div_mod_to_equations. lia.
  - apply Z.eqb_neq in E1.
    destruct ((Z.of_nat n + 1) mod 256 =? 128) eqn:E2.
    + apply Z.eqb_eq in E2. unfold uchar. rewrite Z.mod_small.
      * Z.div_mod_to_equations. lia.
      * Z.div_mod_to_equations. lia.
    + apply Z.eqb_neq in E2. Z.div_mod_to_equations. lia.
Qed.

Lemma loop_event_handler_events (f p ct : Z) :
  in_table p -> Forall loop_event (handler_events f p ct).
Proof.
  intros Hp. pose proof (in_table_range p Hp) as Hr. unfold handler_events.
  repeat (apply Forall_cons;
          [cbn [loop_event];
           auto using uchar_range, ushort_range; try (rewrite table_size; lia)|]).
  apply Forall_app. split.
  - destruct (p + 1 >=? TABLE_SIZE cycle_table); [|constructor].
    apply Forall_cons; [|constructor].
    cbn [loop_event]. rewrite table_size. lia.
  - apply Forall_cons; [|constructor]. cbn [loop_event]. now right.
Qed.

Lemma loop_event_setup_calls (evs : list event) :
  Forall loop_event evs -> setup_calls evs = [].
Proof.
  induction 1 as [|e evs He _ IH]; [reflexivity|].
  destruct e; cbn [setup_calls]; try exact IH; now contradiction He.
Qed.

Lemma loop_event_programmed (evs : list event) :
  Forall loop_event evs ->
  Forall (fun v => 0 <= v < 65536) (programmed evs).
Proof.
  induction 1 as [|e evs He _ IH]; [constructor|].
  destruct e; cbn [programmed]; try exact IH.
  constructor; [exact He|exact IH].
Qed.

Lemma loop_event_io_accesses (evs : list event) :
  Forall loop_event evs ->
  Forall (fun av => fst av = M6811_TFLG1 /\ 0 <= snd av < 256)
         (io_accesses evs).
Proof.
  induction 1 as [|e evs He _ IH]; [constructor|].
  destruct e; cbn [io_accesses]; try exact IH;
    (constructor; [exact He|exact IH]).
Qed.

Lemma deliver_loop (h : hardware) (m : cpu) :
  running m ->
  exists m' : cpu,
    deliver h m = Some m'
    /\ running m'
    /\ pc m' = pc m /\ j m' = j m /\ c m' = c m /\ i m' = i m
    /\ wakeup (mem m') = 1
    /\ 0 <= change_time (mem m') < 65536
    /\ trace (mem m') =
       trace (mem m)
       ++ handler_events (_io_ports h M6811_TFLG1) (cycle_next (mem m))
            (change_time (mem m)).
Proof.
  intros (Hpc & Hl & Hp). unfold deliver. rewrite Hl.
  rewrite (handler_step (set_hw h (mem m)) Hp).
  eexists. split; [reflexivity|].
  cbn [mem pc j c i trace locked cycle_next wakeup set_hw change_time hw].
  split.
  { split; [exact Hpc|]. split; [exact Hl|].
    apply next_offset_in_table. exact Hp. }
  do 5 (split; [reflexivity|]).
  split; [apply ushort_range|reflexivity].
Qed.

Lemma service_loop (hs : list hardware) :
  forall m : cpu,
    running m ->
    0 <= change_time (mem m) < 65536 ->
    exists (m' : cpu) (evs : list event),
      service hs m = Some m'
      /\ running m'
      /\ pc m' = pc m /\ j m' = j m /\ c m' = c m /\ i m' = i m
      /\ trace (mem m') = trace (mem m) ++ evs
      /\ Forall loop_event evs
      /\ serial_output evs = []
      /\ wakeup_stores 0 evs = O
      /\ wakeup_stores 1 evs = List.length hs
      /\ 0 <= change_time (mem m') < 65536
      /\ (hs <> [] -> wakeup (mem m') = 1)
      /\ (hs = [] -> m' = m).
Proof.
  induction hs as [|h hs IH]; intros m Hr Hct.
  - exists m, []. rewrite app_nil_r.
    split; [reflexivity|]. split; [exact Hr|].
    do 5 (split; [reflexivity|]).
    split; [constructor|].
    do 3 (split; [reflexivity|]).
    split; [exact Hct|].
    split; [intros H; now contradiction H|reflexivity].
  - destruct (deliver_loop h m Hr)
      as (m1 & Hd & Hr1 & Hpc1 & Hj1 & Hc1 & Hi1 & Hw1 & Hct1 & Htr1).
    destruct (IH m1 Hr1 Hct1)
      as (m2 & evs & Hs & Hr2 & Hpc2 & Hj2 & Hc2 & Hi2 & Htr2 & Hok & Hso
          & Hz & Hn & Hct2 & Hset & Hid).
    exists m2.
    exists (handler_events (_io_ports h M6811_TFLG1) (cycle_next (mem m))
              (change_time (mem m)) ++ evs).
    cbn [service]. rewrite Hd.
    split; [exact Hs|]. split; [exact Hr2|].
    split; [congruence|]. split; [congruence|].
    split; [congruence|]. split; [congruence|].
    split; [rewrite Htr2, Htr1; now rewrite app_assoc|].
    split.
    { apply Forall_app. split; [|exact Hok].
      apply loop_event_handler_events. apply Hr. }
    split; [now rewrite serial_output_app, serial_output_handler_events|].
    split; [now rewrite wakeup_stores_app, wakeup_clears_handler_events|].
    split.
    { rewrite wakeup_stores_app, wakeup_sets_handler_events, Hn. reflexivity. }
    split; [exact Hct2|].
    split; [|intros H; discriminate H].
    intros _. destruct hs as [|h' hs'].
    + rewrite (Hid eq_refl). exact Hw1.
    + apply Hset. discriminate.
Qed.

Lemma heartbeats_next (vj vc vi : Z) :
  0 <= vj < 1000 ->
  vc = vj mod 256 ->
  vi = (vj + 128) / 256 ->
  uchar (vc + 1) = (vj + 1) mod 256
  /\ next_i vc vi = (vj + 1 + 128) / 256
  /\ heartbeats (Z.to_nat (vj + 1)) 0 0 =
     heartbeats (Z.to_nat vj) 0 0 ++ beat vc vi.
Proof.
  intros Hj Hc Hi.
  assert (Hn : (Z.to_nat vj <= 1000)%nat) by lia.
  assert (HSn : (S (Z.to_nat vj) <= 1000)%nat) by lia.
  pose proof (locals_after_closed (Z.to_nat vj) Hn) as Hl.
  pose proof (locals_after_closed (S (Z.to_nat vj)) HSn) as HlS.
  rewrite locals_after_S, Hl in HlS. cbn [fst snd] in HlS.
  replace (Z.of_nat (Z.to_nat vj)) with vj in * by lia.
  replace (Z.of_nat (S (Z.to_nat vj))) with (vj + 1) in * by lia.
  rewrite <- Hc, <- Hi in *.
  injection HlS as HcS HiS.
  split; [exact HcS|]. split; [exact HiS|].
  replace (Z.to_nat (vj + 1)) with (Z.to_nat vj + 1)%nat by lia.
  rewrite heartbeats_add, Hl. cbn [fst snd heartbeats].
  now rewrite app_nil_r.
Qed.

Ltac conjs := repeat match goal with |- _ /\ _ => split end.

(** One step of the interleaved execution keeps the invariant and appends
    events of the handler and of the loop only. *)
Lemma tick_loop_inv (sched : schedule) (t : nat) (m : cpu) :
  loop_inv m ->
  exists (m' : cpu) (evs : list event),
    tick sched t m = Some m'
    /\ loop_inv m'
    /\ trace (mem m') = trace (mem m) ++ evs
    /\ Forall loop_event evs.
Proof.
  intros (Hr & Hj & Hc & Hi & Hct & Hso & Hpc).
  destruct (service_loop (sched t) m Hr Hct)
    as (m1 & e1 & Hs & Hr1 & Hpc1 & Hj1 & Hc1 & Hi1 & Htr1 & Hok1 & Hso1
        & Hz1 & Hn1 & Hct1 & Hset & Hid).
  assert (Hfired : fired m1 = (fired m + List.length (sched t))%nat).
  { unfold fired. now rewrite Htr1, wakeup_stores_app, Hn1. }
  assert (Hser : serial_output (trace (mem m1)) = serial_output (trace (mem m))).
  { now rewrite Htr1, serial_output_app, Hso1, app_nil_r. }
  assert (Hclr : wakeup_stores 0 (trace (mem m1))
                 = wakeup_stores 0 (trace (mem m))).
  { rewrite Htr1, wakeup_stores_app, Hz1. lia. }
  destruct Hr1 as (_ & Hl1 & Hp1).
  unfold tick. destruct (pc m) eqn:E; try (now contradiction Hpc).
  - (* the loop test *)
    destruct Hpc as (Hcl & Hf).
    rewrite Hs. unfold main_step. rewrite Hpc1, Hj1, Hc1, Hi1.
    destruct (j m <? 1000) eqn:Elt.
    + apply Z.ltb_lt in Elt.
      eexists. exists e1. split; [reflexivity|].
      split; [|split; assumption].
      unfold loop_inv, running, fired in *. cbn [mem pc j c i].
      rewrite Hser, Hclr.
      conjs; try assumption; try discriminate; try reflexivity; lia.
    + apply Z.ltb_ge in Elt.
      eexists. exists e1. split; [reflexivity|].
      split; [|split; assumption].
      unfold loop_inv, running, fired in *. cbn [mem pc j c i].
      rewrite Hser, Hclr.
      conjs; try assumption; try discriminate; try reflexivity; lia.
  - (* wakeup = 0 *)
    destruct Hpc as (Hcl & Hf & Hlt).
    rewrite Hs. unfold main_step. rewrite Hpc1, Hj1, Hc1, Hi1.
    unfold put_wakeup.
    eexists. exists (e1 ++ [StoreWakeup 0]). split; [reflexivity|].
    unfold loop_inv, running, fired in *. cbn [mem pc j c i trace locked
      cycle_next change_time wakeup].
    rewrite serial_output_app, !wakeup_stores_app, Hser, Hclr, Hfired.
    cbn [serial_output wakeup_stores Z.eqb]. rewrite app_nil_r.
    split.
    { conjs; try assumption; try discriminate; try reflexivity; lia. }
    split; [now rewrite Htr1, app_assoc|].
    apply Forall_app. split; [exact Hok1|].
    constructor; [now left|constructor].
  - (* the wait *)
    destruct Hpc as (Hcl & Hf & Hlt & Hw).
    rewrite Hs. unfold main_step. rewrite Hpc1.
    destruct (wakeup (mem m1) =? 0) eqn:Ew.
    + assert (Hnil : sched t = []).
      { destruct (sched t) as [|h hs]; [reflexivity|].
        rewrite Hset in Ew by discriminate. discriminate Ew. }
      rewrite (Hid Hnil). exists m, []. rewrite app_nil_r.
      split; [reflexivity|]. split; [|split; [reflexivity|constructor]].
      unfold loop_inv. rewrite E. conjs; try assumption; lia.
    + assert (Hne : sched t <> []).
      { intros Hnil. rewrite (Hid Hnil), Hw in Ew. discriminate Ew. }
      assert (Hlen : (1 <= List.length (sched t))%nat).
      { destruct (sched t); [now contradiction Hne|simpl; lia]. }
      rewrite Hj1, Hc1, Hi1.
      eexists. exists e1. split; [reflexivity|].
      split; [|split; assumption].
      unfold loop_inv, running, fired in *. cbn [mem pc j c i].
      rewrite Hser, Hclr.
      conjs; try assumption; try discriminate; try reflexivity; lia.
  - (* the body *)
    destruct Hpc as (Hcl & Hf & Hlt).
    rewrite Hs. unfold main_step. rewrite Hpc1.
    unfold heartbeat, serial_send, emit. rewrite Hj1, Hc1, Hi1.
    destruct (heartbeats_next (j m) (c m) (i m) ltac:(lia) Hc Hi)
      as (HcS & HiS & HhS).
    assert (HjS : ushort (j m + 1) = j m + 1).
    { unfold ushort. apply Z.mod_small. lia. }
    unfold next_i, beat in *. rewrite HjS.
    destruct (uchar (c m + 1) =? 1) eqn:E1;
      [|destruct (uchar (c m + 1) =? 128) eqn:E2].
    + eexists. exists (e1 ++ [SerialSend (ascii_of_nat 8)]).
      split; [reflexivity|].
      unfold loop_inv, running, fired in *. cbn [mem pc j c i trace locked
        cycle_next change_time wakeup].
      rewrite serial_output_app, !wakeup_stores_app, Hser, Hclr, Hfired.
      cbn [serial_output wakeup_stores]. rewrite HhS, Hso.
      split.
      { conjs; try assumption; try discriminate; try reflexivity; lia. }
      split; [now rewrite Htr1, app_assoc|].
      apply Forall_app. split; [exact Hok1|]. constructor; [exact I|constructor].
    + eexists. exists (e1 ++ [SerialSend (spinner (uchar (i m + 1)))]).
      split; [reflexivity|].
      unfold loop_inv, running, fired in *. cbn [mem pc j c i trace locked
        cycle_next change_time wakeup].
      rewrite serial_output_app, !wakeup_stores_app, Hser, Hclr, Hfired.
      cbn [serial_output wakeup_stores]. rewrite HhS, Hso.
      split.
      { conjs; try assumption; try discriminate; try reflexivity; lia. }
      split; [now rewrite Htr1, app_assoc|].
      apply Forall_app. split; [exact Hok1|]. constructor; [exact I|constructor].
    + eexists. exists e1. split; [reflexivity|].
      split; [|split; assumption].
      unfold loop_inv, running, fired in *. cbn [mem pc j c i].
      rewrite Hser, Hclr, HhS, Hso, app_nil_r.
      conjs; try assumption; try discriminate; try reflexivity; lia.
  - (* after the return *)
    exists m, []. rewrite app_nil_r.
    split; [reflexivity|]. split; [|split; [reflexivity|constructor]].
    unfold loop_inv. rewrite E. conjs; try assumption; lia.
Qed.

Lemma run_loop_inv (sched : schedule) (n : nat) :
  forall (t : nat) (m : cpu),
    loop_inv m ->
    exists (m' : cpu) (evs : list event),
      run sched n t m = Some m'
      /\ loop_inv m'
      /\ trace (mem m') = trace (mem m) ++ evs
      /\ Forall loop_event evs.
Proof.
  induction n as [|n IH]; intros t m Hinv.
  - exists m, []. rewrite app_nil_r.
    split; [reflexivity|]. split; [exact Hinv|]. split; [reflexivity|constructor].
  - cbn [run].
    destruct (tick_loop_inv sched t m Hinv) as (m1 & e1 & Ht & Hinv1 & Htr1 & Hok1).
    rewrite Ht.
    destruct (IH (S t) m1 Hinv1) as (m2 & e2 & Hrun & Hinv2 & Htr2 & Hok2).
    exists m2, (e1 ++ e2). split; [exact Hrun|]. split; [exact Hinv2|].
    split; [rewrite Htr2, Htr1; now rewrite app_assoc|].
    apply Forall_app. split; assumption.
Qed.

(** Every execution of [main]: after the set-up the invariant holds and
    the trace is the set-up followed by events of the handler and of the
    loop. *)
Lemma main_run_inv (sched : schedule) (n : nat) (h : hardware)
      (p w ct j0 c0 i0 : Z) :
  exists (m : cpu) (evs : list event),
    run sched (S n) 0 (main_entry h p w ct j0 c0 i0) = Some m
    /\ loop_inv m
    /\ trace (mem m) = setup_events (ushort (TCNT h)) ++ evs
    /\ Forall loop_event evs.
Proof.
  destruct (tick_entry sched 0 h p w ct j0 c0 i0)
    as (m1 & Ht & Hr1 & Hpc1 & Hj1 & Hc1 & Hi1 & _ & Hct1 & Htr1).
  assert (Hinv1 : loop_inv m1).
  { unfold loop_inv, fired. rewrite Hpc1, Hj1, Hc1, Hi1, Hct1, Htr1.
    split; [exact Hr1|]. split; [lia|]. split; [reflexivity|].
    split; [reflexivity|]. split; [apply ushort_range|].
    split; [reflexivity|]. split; [reflexivity|]. simpl. lia. }
  destruct (run_loop_inv sched n 1%nat m1 Hinv1)
    as (m & evs & Hrun & Hinv & Htr & Hok).
  exists m, evs. cbn [run]. rewrite Ht.
  split; [exact Hrun|]. split; [exact Hinv|].
  split; [now rewrite Htr, Htr1|exact Hok].
Qed.

(** ** Properties of every execution of [main] *)

(** X10.  The set-up runs once and before any interrupt is serviced.  In
    every execution, under any schedule, the trace begins with the ten
    events of the set-up; no later event is a call of [lock], [unlock],
    [serial_init], [set_interrupt_handler] or [get_timer_counter], so
    interrupts stay unmasked; and after the two writes of the set-up to
    the timer control and mask registers, every access that the program
    itself makes to [_io_ports] (the services of the library apart) is to
    the flag register. *)
Theorem setup_runs_once (sched : schedule) (n : nat) (h : hardware)
        (p w ct j0 c0 i0 : Z) :
  let t0 := ushort (TCNT h) in
  exists (m : cpu) (rest : list (Z * Z)),
    run sched (S n) 0 (main_entry h p w ct j0 c0 i0) = Some m
    /\ firstn 10 (trace (mem m)) = setup_events t0
    /\ setup_calls (trace (mem m)) =
       [ Lock; SerialInit; SetInterruptHandler TIMER_OUTPUT4_VECTOR;
         GetTimerCounter t0; Unlock ]
    /\ locked (mem m) = false
    /\ io_accesses (trace (mem m)) =
       [ (M6811_TCTL1, uchar M6811_OL4); (M6811_TMSK1, uchar M6811_OC4I) ]
       ++ rest
    /\ Forall (fun av => fst av = M6811_TFLG1) rest.
Proof.
  intros t0.
  destruct (main_run_inv sched n h p w ct j0 c0 i0)
    as (m & evs & Hrun & Hinv & Htr & Hok).
  fold t0 in Htr.
  exists m, (io_accesses evs). split; [exact Hrun|].
  rewrite Htr. split; [reflexivity|].
  split.
  { rewrite setup_calls_app, (loop_event_setup_calls evs Hok). reflexivity. }
  split; [apply Hinv|].
  split; [rewrite io_accesses_app; reflexivity|].
  pose proof (loop_event_io_accesses evs Hok) as Hio.
  eapply Forall_impl; [|exact Hio]. intros av Hav. apply Hav.
Qed.

(** X9.  No variable leaves the range of its C type.  In every execution,
    under any schedule: [j] is between 0 and 1000, so it never wraps;
    [c] is [j] modulo 256 and [i] is the number of times [c] has reached
    128; the change time and every value ever programmed in the compare
    register are 16 bit values. *)
Theorem values_stay_in_range (sched : schedule) (n : nat) (h : hardware)
        (p w ct j0 c0 i0 : Z) :
  exists m : cpu,
    run sched (S n) 0 (main_entry h p w ct j0 c0 i0) = Some m
    /\ 0 <= j m <= 1000
    /\ c m = j m mod 256
    /\ i m = (j m + 128) / 256
    /\ 0 <= i m <= 4
    /\ 0 <= change_time (mem m) < 65536
    /\ Forall (fun v => 0 <= v < 65536) (programmed (trace (mem m))).
Proof.
  destruct (main_run_inv sched n h p w ct j0 c0 i0)
    as (m & evs & Hrun & Hinv & Htr & Hok).
  destruct Hinv as (_ & Hj & Hc & Hi & Hct & _).
  exists m. split; [exact Hrun|]. split; [exact Hj|]. split; [exact Hc|].
  split; [exact Hi|]. split.
  { rewrite Hi. Z.div_mod_to_equations. lia. }
  split; [exact Hct|].
  rewrite Htr, programmed_app. apply Forall_app. split.
  - cbn [setup_events programmed]. constructor; [apply ushort_range|constructor].
  - apply loop_event_programmed. exact Hok.
Qed.

(** X4.  The loop never gets ahead of the interrupts.  In every execution,
    under any schedule, the number of completed iterations is at most the
    number of interrupts serviced, the flag has been cleared once per
    iteration begun, and once [main] has returned the value is 0, 1000
    iterations are complete and at least 1000 interrupts were serviced. *)
Theorem iterations_need_interrupts (sched : schedule) (n : nat) (h : hardware)
        (p w ct j0 c0 i0 : Z) :
  exists m : cpu,
    run sched (S n) 0 (main_entry h p w ct j0 c0 i0) = Some m
    /\ j m <= Z.of_nat (wakeup_stores 1 (trace (mem m)))
    /\ j m <= Z.of_nat (wakeup_stores 0 (trace (mem m))) <= j m + 1
    /\ match pc m with
       | L_return r =>
           r = 0 /\ j m = 1000
           /\ 1000 <= Z.of_nat (wakeup_stores 1 (trace (mem m)))
       | L_body => j m + 1 <= Z.of_nat (wakeup_stores 1 (trace (mem m)))
       | L_spin => wakeup (mem m) = 0
       | _ => True
       end.
Proof.
  destruct (main_run_inv sched n h p w ct j0 c0 i0)
    as (m & evs & Hrun & Hinv & _).
  destruct Hinv as (_ & Hj & _ & _ & _ & _ & Hpc).
  exists m. split; [exact Hrun|]. unfold fired in Hpc.
  destruct (pc m); try (now contradiction Hpc).
  - destruct Hpc as (Hcl & Hf). repeat split; lia.
  - destruct Hpc as (Hcl & Hf & Hlt). repeat split; lia.
  - destruct Hpc as (Hcl & Hf & Hlt & Hw). repeat split; lia.
  - destruct Hpc as (Hcl & Hf & Hlt). repeat split; lia.
  - destruct Hpc as (Hr & H1000 & Hcl & Hf). repeat split; lia.
Qed.

(** X8.  What the serial line carries does not depend on the schedule.  In
    every execution the characters sent so far are those of the first
    [j] iterations, a function of [j] alone, and they form a prefix of the
    eight characters of a complete run (codes 8, 92, 8, 124, 8, 47, 8,
    45). *)
Theorem serial_line_is_prefix (sched : schedule) (n : nat) (h : hardware)
        (p w ct j0 c0 i0 : Z) :
  exists (m : cpu) (rest : list ascii),
    run sched (S n) 0 (main_entry h p w ct j0 c0 i0) = Some m
    /\ serial_output (trace (mem m)) = heartbeats (Z.to_nat (j m)) 0 0
    /\ serial_output (trace (mem m)) ++ rest =
       [ ascii_of_nat 8; ascii_of_nat 92; ascii_of_nat 8; ascii_of_nat 124;
         ascii_of_nat 8; ascii_of_nat 47; ascii_of_nat 8; ascii_of_nat 45 ].
Proof.
  destruct (main_run_inv sched n h p w ct j0 c0 i0)
    as (m & evs & Hrun & Hinv & _).
  destruct Hinv as (_ & Hj & _ & _ & _ & Hso & _).
  exists m.
  exists (heartbeats (1000 - Z.to_nat (j m))
            (fst (locals_after (Z.to_nat (j m)) 0 0))
            (snd (locals_after (Z.to_nat (j m)) 0 0))).
  split; [exact Hrun|]. split; [exact Hso|].
  rewrite Hso, <- heartbeats_add.
  replace (Z.to_nat (j m) + (1000 - Z.to_nat (j m)))%nat with 1000%nat by lia.
  vm_compute. reflexivity.
Qed.

(** ** Wakeups are not counted *)

(** X5.  Interrupts serviced after the end of one wait and before the flag is
    cleared do not end the next wait: whatever number of interrupts is
    serviced just before [wakeup = 0], the flag is 0 afterwards and, if no
    interrupt follows at once, the loop is spinning, with the interrupts
    serviced but no iteration gained. *)
Theorem interrupts_before_clear_are_lost (sched : schedule) (t : nat)
        (m : cpu) :
  running m -> pc m = L_clear -> sched (S t) = [] ->
  exists m' : cpu,
    run sched 2 t m = Some m'
    /\ pc m' = L_spin
    /\ wakeup (mem m') = 0
    /\ j m' = j m
    /\ wakeup_stores 1 (trace (mem m')) =
       (wakeup_stores 1 (trace (mem m)) + List.length (sched t))%nat.
Proof.
  intros Hr Hpc Hidle.
  destruct (service_obs (sched t) m Hr)
    as (m1 & Hs & Hr1 & Hpc1 & Hobs & Hf & _ & _).
  unfold obs in Hobs. injection Hobs as Hj Hc Hi Hso Hw.
  rewrite Hpc in Hpc1.
  eexists. split.
  - cbn [run]. unfold tick at 1. rewrite Hpc, Hs.
    unfold main_step at 1. rewrite Hpc1. unfold put_wakeup.
    rewrite tick_spin_idle; [reflexivity|reflexivity|reflexivity|exact Hidle].
  - cbn [mem pc j wakeup trace]. unfold fired in Hf.
    rewrite wakeup_stores_app, Hf. cbn [wakeup_stores Z.eqb].
    repeat split; try assumption. lia.
Qed.

(** ** A bound on the running time *)

Lemma run_returned (sched : schedule) (n : nat) :
  forall (t : nat) (m : cpu) (r : Z),
    pc m = L_return r -> run sched n t m = Some m.
Proof.
  induction n as [|n IH]; intros t m r Hpc; [reflexivity|].
  cbn [run]. unfold tick. rewrite Hpc. now apply (IH (S t) m r).
Qed.

Lemma spin_bounded (sched : schedule) (d : nat) :
  forall (t : nat) (m : cpu),
    running m -> pc m = L_spin -> wakeup (mem m) = 0 ->
    sched (t + d)%nat <> [] ->
    exists (k : nat) (m' : cpu),
      (k <= d)%nat
      /\ run sched (S k) t m = Some m'
      /\ running m'
      /\ pc m' = L_body
      /\ j m' = j m.
Proof.
  induction d as [|d IH]; intros t m Hr Hpc Hw Hfire.
  - rewrite Nat.add_0_r in Hfire.
    destruct (tick_spin_fire sched t m Hr Hpc Hfire)
      as (m' & Ht & Hr' & Hpc' & Hobs & _).
    unfold obs in Hobs. injection Hobs as Hj _ _ _ _.
    exists 0%nat, m'. cbn [run]. rewrite Ht.
    split; [lia|]. split; [reflexivity|]. split; [exact Hr'|].
    split; assumption.
  - destruct (sched t) as [|h hs] eqn:E.
    + replace (t + S d)%nat with (S t + d)%nat in Hfire by lia.
      destruct (IH (S t) m Hr Hpc Hw Hfire) as (k & m' & Hk & Hrun & Hrest).
      exists (S k), m'. split; [lia|].
      change (run sched (S (S k)) t m)
        with (match tick sched t m with
              | Some m1 => run sched (S k) (S t) m1
              | None => None
              end).
      rewrite (tick_spin_idle sched t m Hpc Hw E). split; assumption.
    + assert (Hnow : sched t <> []) by (rewrite E; discriminate).
      destruct (tick_spin_fire sched t m Hr Hpc Hnow)
        as (m' & Ht & Hr' & Hpc' & Hobs & _).
      unfold obs in Hobs. injection Hobs as Hj _ _ _ _.
      exists 0%nat, m'. cbn [run]. rewrite Ht.
      split; [lia|]. split; [reflexivity|]. split; [exact Hr'|].
      split; assumption.
Qed.

Lemma iteration_bounded (sched : schedule) (G : nat) (t : nat) (m : cpu) :
  gap_bounded G sched ->
  running m -> pc m = L_for_test -> 0 <= j m < 1000 ->
  exists (k : nat) (m' : cpu),
    (k <= G)%nat
    /\ run sched (k + 4) t m = Some m'
    /\ running m'
    /\ pc m' = L_for_test
    /\ j m' = j m + 1.
Proof.
  intros Hgap Hr Hpc Hj.
  destruct (tick_for_test sched t m Hr Hpc)
    as (m1 & Ht1 & Hr1 & Hpc1 & Hobs1 & _).
  assert (Elt : (j m <? 1000) = true) by (apply Z.ltb_lt; lia).
  rewrite Elt in Hpc1.
  unfold obs in Hobs1. injection Hobs1 as Hj1 _ _ _ _.
  destruct (tick_clear sched (S t) m1 Hr1 Hpc1)
    as (m2 & Ht2 & Hr2 & Hpc2 & Hz2 & Hj2 & _).
  destruct (Hgap (S (S t))) as (d & Hd & Hfire).
  destruct (spin_bounded sched d (S (S t)) m2 Hr2 Hpc2 Hz2 Hfire)
    as (k & m3 & Hk & Hrun3 & Hr3 & Hpc3 & Hj3).
  destruct (tick_body sched (S (S t) + S k) m3 Hr3 Hpc3)
    as (m4 & Ht4 & Hr4 & Hpc4 & Hj4 & _).
  exists k, m4. split; [lia|]. split.
  - replace (k + 4)%nat with (S (S (S k + 1))) by lia.
    cbn [run]. rewrite Ht1, Ht2.
    change (match tick sched (S (S t)) m2 with
            | Some m' => run sched (k + 1) (S (S (S t))) m'
            | None => None
            end) with (run sched (S k + 1) (S (S t)) m2).
    rewrite run_app, Hrun3. cbn [run]. now rewrite Ht4.
  - split; [exact Hr4|]. split; [exact Hpc4|].
    rewrite Hj4, Hj3, Hj2, Hj1. unfold ushort. apply Z.mod_small. lia.
Qed.

Lemma loop_bounded (sched : schedule) (G : nat) (d : nat) :
  gap_bounded G sched ->
  forall (t : nat) (m : cpu),
    running m -> pc m = L_for_test ->
    j m = 1000 - Z.of_nat d -> (d <= 1000)%nat ->
    exists (n : nat) (m' : cpu),
      (n <= d * (G + 4) + 1)%nat
      /\ run sched n t m = Some m'
      /\ pc m' = L_return 0
      /\ j m' = 1000.
Proof.
  intros Hgap. induction d as [|d IH]; intros t m Hr Hpc Hj Hd.
  - destruct (tick_for_test sched t m Hr Hpc)
      as (m1 & Ht1 & _ & Hpc1 & Hobs1 & _).
    simpl in Hj. rewrite Hj in Hpc1. simpl in Hpc1.
    unfold obs in Hobs1. injection Hobs1 as Hj1 _ _ _ _.
    exists 1%nat, m1. cbn [run]. rewrite Ht1.
    split; [lia|]. split; [reflexivity|]. split; [exact Hpc1|congruence].
  - destruct (iteration_bounded sched G t m Hgap Hr Hpc ltac:(lia))
      as (k & m1 & Hk & Hrun1 & Hr1 & Hpc1 & Hj1).
    destruct (IH (t + (k + 4))%nat m1 Hr1 Hpc1 ltac:(lia) ltac:(lia))
      as (n2 & m2 & Hn2 & Hrun2 & Hpc2 & Hj2).
    exists ((k + 4) + n2)%nat, m2. split; [simpl; nia|].
    rewrite run_app, Hrun1. split; [exact Hrun2|]. split; assumption.
Qed.

(** X6.  When interrupts are never more than [G] steps apart, [main] has
    returned 0 after 1000 (G + 4) + 2 steps at the latest, and it stays
    returned at every later step. *)
Theorem main_returns_within (sched : schedule) (G : nat) (n : nat)
        (h : hardware) (p w ct j0 c0 i0 : Z) :
  gap_bounded G sched ->
  (1000 * (G + 4) + 2 <= n)%nat ->
  exists m : cpu,
    run sched n 0 (main_entry h p w ct j0 c0 i0) = Some m
    /\ pc m = L_return 0
    /\ j m = 1000.
Proof.
  intros Hgap Hn.
  destruct (tick_entry sched 0 h p w ct j0 c0 i0)
    as (m1 & Ht & Hr1 & Hpc1 & Hj1 & _).
  destruct (loop_bounded sched G 1000 Hgap 1%nat m1 Hr1 Hpc1)
    as (n1 & m & Hn1 & Hrun & Hpc & Hj);
    [rewrite Hj1; reflexivity|lia|].
  exists m.
  replace n with (S n1 + (n - S n1))%nat by lia.
  rewrite run_app.
  assert (Hfirst : run sched (S n1) 0 (main_entry h p w ct j0 c0 i0) = Some m).
  { cbn [run]. rewrite Ht. exact Hrun. }
  rewrite Hfirst. rewrite (run_returned sched _ _ m 0 Hpc).
  split; [reflexivity|]. split; assumption.
Qed.

(** ** The wait has no time-out *)

Lemma spin_forever (sched : schedule) (n : nat) :
  forall (t : nat) (m : cpu),
    (forall t' : nat, sched t' = []) ->
    pc m = L_spin -> wakeup (mem m) = 0 ->
    run sched n t m = Some m.
Proof.
  induction n as [|n IH]; intros t m Hidle Hpc Hw; [reflexivity|].
  cbn [run]. rewrite (tick_spin_idle sched t m Hpc Hw (Hidle t)).
  now apply IH.
Qed.

(** X7.  When no interrupt is ever serviced, [main] never returns: from its
    third step on it spins in the first wait, with no iteration complete
    and nothing sent on the serial line, whatever the hardware and the
    memory hold at entry. *)
Theorem main_spins_without_interrupts (sched : schedule) (n : nat)
        (h : hardware) (p w ct j0 c0 i0 : Z) :
  (forall t : nat, sched t = []) ->
  exists m : cpu,
    run sched (3 + n) 0 (main_entry h p w ct j0 c0 i0) = Some m
    /\ pc m = L_spin
    /\ wakeup (mem m) = 0
    /\ j m = 0
    /\ serial_output (trace (mem m)) = []
    /\ wakeup_stores 1 (trace (mem m)) = O.
Proof.
  intros Hidle.
  destruct (tick_entry sched 0 h p w ct j0 c0 i0)
    as (m1 & Ht1 & Hr1 & Hpc1 & Hj1 & _ & _ & _ & _ & Htr1).
  set (m2 := mkCpu (mem m1) L_clear 0 (c m1) (i m1)).
  assert (Ht2 : tick sched 1 m1 = Some m2).
  { unfold tick. rewrite Hpc1, Hidle. cbn [service].
    unfold main_step. rewrite Hpc1, Hj1. reflexivity. }
  set (m3 := mkCpu (mkState (hw (mem m1)) (locked (mem m1))
                            (cycle_next (mem m1)) 0 (change_time (mem m1))
                            (trace (mem m1) ++ [StoreWakeup 0]))
                   L_spin 0 (c m1) (i m1)).
  assert (Ht3 : tick sched 2 m2 = Some m3).
  { unfold tick. cbn [pc m2]. rewrite Hidle. reflexivity. }
  exists m3. split.
  - change (3 + n)%nat with (S (S (S n))). cbn [run].
    rewrite Ht1, Ht2, Ht3. apply spin_forever; [exact Hidle|reflexivity..].
  - subst m3. cbn [pc mem wakeup j trace]. rewrite Htr1.
    repeat split; reflexivity.
Qed.

(** ** The spinner *)

(** X12.  The index [(++i) & 3] is always inside the four character string, so
    the character sent is one of its four characters, and the spinner
    repeats every four increments of [i]. *)
Theorem spinner_in_bounds (vi : Z) :
  0 <= Z.land vi 3 < 4
  /\ String.get (Z.to_nat (Z.land vi 3)) "-\|/" = Some (spinner vi)
  /\ In (spinner vi)
        [ascii_of_nat 45; ascii_of_nat 92; ascii_of_nat 124; ascii_of_nat 47]
  /\ spinner (vi + 4) = spinner vi.
Proof.
  assert (Hl : forall x : Z, Z.land x 3 = x mod 4).
  { intros x. change 3 with (Z.ones 2). rewrite Z.land_ones by lia.
    reflexivity. }
  assert (Hget : forall x : Z,
             String.get (Z.to_nat (Z.land x 3)) "-\|/" = Some (spinner x)
             /\ In (spinner x)
                   [ascii_of_nat 45; ascii_of_nat 92; ascii_of_nat 124;
                    ascii_of_nat 47]).
  { intros x. unfold spinner. rewrite Hl.
    assert (Hx : 0 <= x mod 4 < 4) by (apply Z.mod_pos_bound; lia).
    assert (Hc : x mod 4 = 0 \/ x mod 4 = 1 \/ x mod 4 = 2 \/ x mod 4 = 3)
      by lia.
    destruct Hc as [Hc|[Hc|[Hc|Hc]]]; rewrite Hc; cbn;
      (split; [reflexivity|]);
      repeat (first [left; reflexivity | right]). }
  split; [rewrite Hl; apply Z.mod_pos_bound; lia|].
  split; [apply Hget|]. split; [apply Hget|].
  unfold spinner. rewrite !Hl.
  replace (vi + 4) with (vi + 1 * 4) by lia.
  now rewrite Z.mod_add by lia.
Qed.

(** ** The compare values of an execution *)

Lemma targets_snoc (k : nat) :
  forall p0 c0 : Z,
    in_table p0 ->
    targets (S k) p0 c0 =
    targets k p0 c0
    ++ [ushort (table_at ((p0 + Z.of_nat k) mod 12)
                + last (targets k p0 c0) c0)].
Proof.
  induction k as [|k IH]; intros p0 c0 Hp.
  - cbn [targets last app Z.of_nat].
    rewrite Z.add_0_r, Z.mod_small by (now apply in_table_range).
    reflexivity.
  - change (targets (S (S k)) p0 c0)
      with (ushort (table_at p0 + c0)
            :: targets (S k) (next_offset p0) (ushort (table_at p0 + c0))).
    rewrite (IH (next_offset p0) (ushort (table_at p0 + c0))
               (next_offset_in_table p0 Hp)).
    change (targets (S k) p0 c0)
      with (ushort (table_at p0 + c0)
            :: targets k (next_offset p0) (ushort (table_at p0 + c0))).
    rewrite last_cons, (next_offset_mod p0 Hp), shift_mod.
    replace (Z.of_nat k + 1) with (Z.of_nat (S k)) by lia.
    reflexivity.
Qed.

Lemma mod12_in_table (k : nat) : in_table (Z.of_nat k mod 12).
Proof.
  unfold in_table. rewrite table_size. apply Z.mod_pos_bound. lia.
Qed.

Lemma deliver_engine (ct0 : Z) (k : nat) (h : hardware) (m : cpu) :
  engine_inv ct0 k m ->
  exists m' : cpu,
    deliver h m = Some m'
    /\ engine_inv ct0 (S k) m'
    /\ pc m' = pc m.
Proof.
  intros ((Hpc & Hl & Hp) & Hpr & Hcn & Hct & Hw).
  unfold deliver. rewrite Hl.
  rewrite (handler_step (set_hw h (mem m)) Hp).
  eexists. split; [reflexivity|]. split; [|reflexivity].
  unfold engine_inv, running.
  cbn [mem pc trace locked cycle_next change_time set_hw hw].
  rewrite programmed_app, programmed_handler_events, wakeup_stores_app,
    wakeup_sets_handler_events, Hpr, Hw.
  rewrite (targets_snoc k 0 ct0 in_table_0), <- Hct, Z.add_0_l, <- Hcn.
  conjs; try assumption.
  - now apply next_offset_in_table.
  - reflexivity.
  - rewrite (next_offset_mod _ Hp), Hcn, Zplus_mod_idemp_l. f_equal. lia.
  - now rewrite last_last.
  - lia.
Qed.

Lemma service_engine (ct0 : Z) (hs : list hardware) :
  forall (k : nat) (m : cpu),
    engine_inv ct0 k m ->
    exists m' : cpu,
      service hs m = Some m'
      /\ engine_inv ct0 (k + List.length hs) m'
      /\ pc m' = pc m.
Proof.
  induction hs as [|h hs IH]; intros k m Hinv.
  - exists m. cbn [service List.length]. rewrite Nat.add_0_r.
    split; [reflexivity|]. split; [exact Hinv|reflexivity].
  - destruct (deliver_engine ct0 k h m Hinv) as (m1 & Hd & Hinv1 & Hpc1).
    destruct (IH (S k) m1 Hinv1) as (m2 & Hs & Hinv2 & Hpc2).
    exists m2. cbn [service List.length]. rewrite Hd.
    split; [exact Hs|]. split; [|congruence].
    now replace (k + S (List.length hs))%nat with (S k + List.length hs)%nat
      by lia.
Qed.

Lemma main_step_engine (ct0 : Z) (k : nat) (m : cpu) :
  engine_inv ct0 k m ->
  exists m' : cpu, main_step m = Some m' /\ engine_inv ct0 k m'.
Proof.
  intros (Hr & Hpr & Hcn & Hct & Hw).
  destruct m as [s l vj vc vi]. destruct Hr as (Hpc & Hl & Hp).
  cbn [mem pc] in *. unfold main_step. cbn [pc mem j c i].
  destruct l; try (now contradiction Hpc).
  - destruct (vj <? 1000); eexists; (split; [reflexivity|]);
      unfold engine_inv, running; cbn [mem pc];
      conjs; try assumption; discriminate.
  - eexists. split; [reflexivity|].
    unfold engine_inv, running, put_wakeup.
    cbn [mem pc trace locked cycle_next change_time].
    rewrite programmed_app, wakeup_stores_app. cbn [programmed wakeup_stores Z.eqb].
    rewrite app_nil_r, Nat.add_0_r.
    conjs; try assumption; discriminate.
  - destruct (wakeup s =? 0); eexists; (split; [reflexivity|]);
      unfold engine_inv, running; cbn [mem pc];
      conjs; try assumption; discriminate.
  - unfold heartbeat, serial_send, emit. cbn [mem pc j c i].
    destruct (uchar (vc + 1) =? 1); [|destruct (uchar (vc + 1) =? 128)];
      eexists; (split; [reflexivity|]);
      unfold engine_inv, running;
      cbn [mem pc trace locked cycle_next change_time];
      rewrite ?programmed_app, ?wakeup_stores_app;
      cbn [programmed wakeup_stores];
      rewrite ?app_nil_r, ?Nat.add_0_r;
      conjs; try assumption; discriminate.
  - eexists. split; [reflexivity|].
    unfold engine_inv, running. cbn [mem pc].
    conjs; try assumption; discriminate.
Qed.

Lemma run_engine (ct0 : Z) (sched : schedule) (n : nat) :
  forall (t k : nat) (m : cpu),
    engine_inv ct0 k m ->
    exists (m' : cpu) (k' : nat),
      run sched n t m = Some m' /\ engine_inv ct0 k' m'.
Proof.
  induction n as [|n IH]; intros t k m Hinv.
  - exists m, k. split; [reflexivity|exact Hinv].
  - cbn [run]. unfold tick.
    destruct (service_engine ct0 (sched t) k m Hinv) as (m1 & Hs & Hinv1 & Hpc1).
    destruct (main_step_engine ct0 _ m1 Hinv1) as (m2 & Hm & Hinv2).
    destruct (pc m) eqn:E;
      try (rewrite Hs, Hm; exact (IH (S t) _ m2 Hinv2)).
    exact (IH (S t) k m Hinv).
Qed.

(** X1.  In every execution of [main], under any schedule, the values
    written to the compare register are fixed by the counter value read in the
    set-up: the first is that value plus 300, each later one is its
    predecessor plus the next duration of the table taken cyclically,
    modulo 2^16.  There is one such value per interrupt serviced, the
    cursor is the number of interrupts modulo 12 and the change time is
    the last value written. *)
Theorem compare_values_of_an_execution (sched : schedule) (n : nat)
        (h : hardware) (p w ct j0 c0 i0 : Z) :
  let ct0 := ushort (ushort (TCNT h) + 300) in
  exists (m : cpu) (vs : list Z),
    run sched (S n) 0 (main_entry h p w ct j0 c0 i0) = Some m
    /\ programmed (trace (mem m)) = ct0 :: vs
    /\ List.length vs = wakeup_stores 1 (trace (mem m))
    /\ (forall k : nat,
          (k < List.length vs)%nat ->
          nth (S k) (ct0 :: vs) 0 =
          ushort (nth k (ct0 :: vs) 0
                  + table_at (Z.of_nat k mod TABLE_SIZE cycle_table)))
    /\ cycle_next (mem m) =
       Z.of_nat (List.length vs) mod TABLE_SIZE cycle_table
    /\ change_time (mem m) = last vs ct0.
Proof.
  intros ct0.
  destruct (tick_entry sched 0 h p w ct j0 c0 i0)
    as (m1 & Ht & Hr1 & _ & _ & _ & _ & Hcn1 & Hct1 & Htr1).
  assert (Hinv1 : engine_inv ct0 0 m1).
  { unfold engine_inv. rewrite Htr1, Hcn1, Hct1.
    split; [exact Hr1|]. repeat split; reflexivity. }
  destruct (run_engine ct0 sched n 1%nat 0%nat m1 Hinv1)
    as (m & k & Hrun & (_ & Hpr & Hcn & Hct & Hw)).
  exists m, (targets k 0 ct0). cbn [run]. rewrite Ht.
  split; [exact Hrun|]. split; [exact Hpr|].
  rewrite targets_length, table_size.
  split; [now rewrite Hw|]. split.
  - intros i' Hi'. cbn [nth].
    rewrite (targets_nth k 0 ct0 i' in_table_0 Hi'). reflexivity.
  - split; assumption.
Qed.

(** ** The driver loop: termination and cadence *)

(** What the first [n] iterations send: iteration k sends a backspace when
    k is 1 modulo 256 and a character of the spinner when k is 128 modulo
    256, nothing otherwise. *)
Lemma heartbeats_cadence (n : nat) :
  (n <= 1000)%nat ->
  heartbeats n 0 0 =
  flat_map
    (fun k : nat =>
       if Z.of_nat k mod 256 =? 1 then [ascii_of_nat 8]
       else if Z.of_nat k mod 256 =? 128
            then [spinner ((Z.of_nat k + 128) / 256)]
            else [])
    (seq 1 n).
Proof.
  induction n as [|n IH]; intros Hn; [reflexivity|].
  rewrite seq_S, flat_map_app, <- IH by lia.
  cbn [flat_map Nat.add]. rewrite app_nil_r.
  destruct (heartbeats_next (Z.of_nat n) (Z.of_nat n mod 256)
              ((Z.of_nat n + 128) / 256) ltac:(lia) eq_refl eq_refl)
    as (Hc & Hi & Hh).
  replace (Z.to_nat (Z.of_nat n + 1)) with (S n) in Hh by lia.
  replace (Z.to_nat (Z.of_nat n)) with n in Hh by lia.
  rewrite Hh. f_equal.
  replace (Z.of_nat (S n)) with (Z.of_nat n + 1) by lia.
  unfold beat. unfold next_i in Hi. rewrite Hc in *.
  destruct ((Z.of_nat n + 1) mod 256 =? 1); [reflexivity|].
  destruct ((Z.of_nat n + 1) mod 256 =? 128); [|reflexivity].
  now rewrite Hi.
Qed.

(** C10.  When each wait eventually ends (an interrupt is serviced at or
    after every time at which [main] is at the spin on the flag), [main]
    started with interrupts masked runs its set-up, goes through the loop
    exactly 1000 times and returns 0: it clears the wakeup flag exactly
    1000 times, at least 1000 interrupts are serviced meanwhile, and the
    serial line carries exactly eight characters (codes 8, 92, 8, 124, 8,
    47, 8, 45).  The cadence: at every step of the execution, after [j]
    completed iterations, the 8 bit counter [c] is [j] modulo 256 and the
    characters sent so far are, for the iterations k = 1 .. j in order,
    one backspace for each k at which [c] is 1 and one character of the
    spinner for each k at which [c] is 128, and nothing else: two
    characters per 256 wakeups. *)
Theorem main_returns_after_1000_wakeups (sched : schedule) (h : hardware)
        (p w ct j0 c0 i0 : Z) :
  waits_end sched (main_entry h p w ct j0 c0 i0) ->
  (exists (n : nat) (m : cpu),
      run sched n 0 (main_entry h p w ct j0 c0 i0) = Some m
      /\ pc m = L_return 0
      /\ j m = 1000
      /\ wakeup_stores 0 (trace (mem m)) = 1000%nat
      /\ (1000 <= wakeup_stores 1 (trace (mem m)))%nat
      /\ serial_output (trace (mem m)) =
         [ ascii_of_nat 8; ascii_of_nat 92; ascii_of_nat 8; ascii_of_nat 124;
           ascii_of_nat 8; ascii_of_nat 47; ascii_of_nat 8; ascii_of_nat 45 ])
  /\ (forall n : nat,
         exists m : cpu,
           run sched (S n) 0 (main_entry h p w ct j0 c0 i0) = Some m
           /\ 0 <= j m <= 1000
           /\ c m = j m mod 256
           /\ serial_output (trace (mem m)) =
              flat_map
                (fun k : nat =>
                   if Z.of_nat k mod 256 =? 1 then [ascii_of_nat 8]
                   else if Z.of_nat k mod 256 =? 128
                        then [spinner ((Z.of_nat k + 128) / 256)]
                        else [])
                (seq 1 (Z.to_nat (j m)))).
Proof.
  intros Hwaits. split.
  - destruct (tick_entry sched 0 h p w ct j0 c0 i0)
      as (m1 & Ht & Hr1 & Hpc1 & Hj1 & Hc1 & Hi1 & _ & _ & Htr).
    assert (Hreach1 : run sched 1 0 (main_entry h p w ct j0 c0 i0) = Some m1).
    { cbn [run]. now rewrite Ht. }
    destruct (loop_to_return sched (main_entry h p w ct j0 c0 i0) 1000
                Hwaits 1%nat m1 Hreach1 Hr1 Hpc1)
      as (n & m & Hrun & Hpc & Hj & Hso & Hw & Hf);
      [rewrite Hj1; reflexivity|lia|].
    exists (S n), m. split; [cbn [run]; rewrite Ht; exact Hrun|].
    split; [exact Hpc|]. split; [exact Hj|].
    unfold fired in Hf. rewrite Htr in Hso, Hw, Hf. rewrite Hc1, Hi1 in Hso.
    simpl in Hw, Hf. split; [exact Hw|]. split; [lia|].
    rewrite Hso. vm_compute. reflexivity.
  - intros n.
    destruct (main_run_inv sched n h p w ct j0 c0 i0)
      as (m & evs & Hrun & Hinv & _).
    destruct Hinv as (_ & Hj & Hc & _ & _ & Hso & _).
    exists m. split; [exact Hrun|]. split; [exact Hj|]. split; [exact Hc|].
    rewrite Hso. apply heartbeats_cadence. lia.
Qed.

End Program.

(** ** The program on concrete inputs *)

(** One invocation from a change time of 65000: the compare value wraps to
    464, the cursor advances and the flag is set. *)
Example handler_wraps :
  option_map (fun r => (change_time (snd r), cycle_next (snd r), wakeup (snd r)))
             (output_compare_interrupt HC11.TFLG1 HC11.OC4F HC11.s_armed)
  = Some (464, 1, 1).
Proof. reflexivity. Qed.

(** An invocation with the cursor one past the last entry is undefined. *)
Example handler_past_the_end :
  output_compare_interrupt HC11.TFLG1 HC11.OC4F
    (mkState HC11.hw_early false 12 0 65000 []) = None.
Proof. reflexivity. Qed.

(** Thirteen invocations: the programmed compare values. *)
Example thirteen_interrupts :
  option_map (fun s => (programmed (trace s), cycle_next s))
             (interrupts HC11.TFLG1 HC11.OC4F (repeat HC11.hw_late 13)
                HC11.s_armed)
  = Some ([464; 1464; 2464; 4464; 6464; 16464; 16664; 17664; 27664; 29664;
           29864; 30064; 31064], 1).
Proof. vm_compute. reflexivity. Qed.

(** The first steps of [main] under the schedule [HC11.every_third]: the
    two interrupts before the fourth step end the first wait; the two
    before the seventh step are serviced before [wakeup = 0] and do not end
    the second wait.  After 601 steps, 100 iterations are complete and
    400 interrupts were serviced. *)
Example main_under_every_third :
  let go n :=
    option_map (fun m => (pc m, j m, c m, wakeup (mem m),
                          wakeup_stores 1 (trace (mem m))))
               (run HC11.TFLG1 HC11.OC4F HC11.TCTL1 HC11.OL4 HC11.TMSK1
                    HC11.OC4I HC11.OUTPUT4_VECTOR HC11.every_third n 0
                    (main_entry HC11.hw_early 7 1 0 0 0 0)) in
  go 3%nat = Some (L_spin, 0, 0, 0, 0%nat)
  /\ go 4%nat = Some (L_body, 0, 0, 1, 2%nat)
  /\ go 5%nat = Some (L_for_test, 1, 1, 1, 2%nat)
  /\ go 7%nat = Some (L_spin, 1, 1, 0, 4%nat)
  /\ go 8%nat = Some (L_spin, 1, 1, 0, 4%nat)
  /\ go 10%nat = Some (L_body, 1, 1, 1, 6%nat)
  /\ go 601%nat = Some (L_spin, 100, 100, 0, 400%nat).
Proof. vm_compute. repeat split; reflexivity. Qed.

(** ** Instances of the theorems *)

Lemma compare_values_accumulate_witness :
  let hs := [HC11.hw_early; HC11.hw_late; HC11.hw_early] in
  let s := HC11.s_armed in
  cycle_next s = 0
  /\ exists (s' : state) (vs : list Z),
       interrupts HC11.TFLG1 HC11.OC4F hs s = Some s'
       /\ programmed (trace s') = programmed (trace s) ++ vs
       /\ List.length vs = List.length hs
       /\ (forall k : nat,
             (k < List.length hs)%nat ->
             nth k vs 0 =
             ushort (nth k (change_time s :: vs) 0
                     + table_at (Z.of_nat k mod TABLE_SIZE cycle_table)))
       /\ change_time s' = last vs (change_time s)
       /\ ushort (change_time s') =
          ushort (change_time s + elapsed (List.length hs) 0).
Proof.
  split; [reflexivity|].
  apply (compare_values_accumulate HC11.TFLG1 HC11.OC4F
           [HC11.hw_early; HC11.hw_late; HC11.hw_early] HC11.s_armed).
  reflexivity.
Defined.

Lemma cursor_after_interrupts_witness :
  let hs := repeat HC11.hw_late 14 in
  cycle_next HC11.s_armed = 0
  /\ exists s' : state,
       interrupts HC11.TFLG1 HC11.OC4F hs HC11.s_armed = Some s'
       /\ cycle_next s' = Z.of_nat (List.length hs) mod TABLE_SIZE cycle_table.
Proof.
  split; [reflexivity|].
  apply (cursor_after_interrupts HC11.TFLG1 HC11.OC4F
           (repeat HC11.hw_late 14) HC11.s_armed).
  reflexivity.
Defined.

Lemma compare_values_latency_independent_witness :
  let hs1 := [HC11.hw_early; HC11.hw_early] in
  let hs2 := [HC11.hw_late; HC11.hw_late] in
  let s1 := HC11.s_armed in
  let s2 := HC11.s_armed' in
  (List.length hs1 = List.length hs2
   /\ change_time s1 = change_time s2
   /\ cycle_next s1 = cycle_next s2)
  /\ match interrupts HC11.TFLG1 HC11.OC4F hs1 s1,
           interrupts HC11.TFLG1 HC11.OC4F hs2 s2 with
     | Some s1', Some s2' =>
         (exists vs : list Z,
             programmed (trace s1') = programmed (trace s1) ++ vs
             /\ programmed (trace s2') = programmed (trace s2) ++ vs)
         /\ change_time s1' = change_time s2'
         /\ cycle_next s1' = cycle_next s2'
         /\ counter_reads (trace s1') = counter_reads (trace s1)
         /\ counter_reads (trace s2') = counter_reads (trace s2)
     | None, None => True
     | _, _ => False
     end.
Proof.
  split; [repeat split; reflexivity|].
  apply (compare_values_latency_independent HC11.TFLG1 HC11.OC4F
           [HC11.hw_early; HC11.hw_early] [HC11.hw_late; HC11.hw_late]
           HC11.s_armed HC11.s_armed'); reflexivity.
Defined.

Lemma table_durations_programmed_witness :
  let hs := repeat HC11.hw_early 13 in
  let s := HC11.s_armed in
  (List.length hs = 13%nat /\ cycle_next s = 0)
  /\ cycle_table = map (fun us => 2 * us) cycle_table_us
  /\ cycle_table =
     [1000; 1000; 1000; 2000; 2000; 10000; 200; 1000; 10000; 2000; 200; 200]
  /\ (exists s12 : state,
         interrupts HC11.TFLG1 HC11.OC4F (firstn 12 hs) s = Some s12
         /\ cycle_next s12 = 0)
  /\ (exists (s' : state) (vs : list Z),
         interrupts HC11.TFLG1 HC11.OC4F hs s = Some s'
         /\ programmed (trace s') = programmed (trace s) ++ vs
         /\ deltas (change_time s) vs = cycle_table ++ [1000]).
Proof.
  split; [split; reflexivity|].
  apply (table_durations_programmed HC11.TFLG1 HC11.OC4F
           (repeat HC11.hw_early 13) HC11.s_armed); reflexivity.
Defined.

Lemma handler_order_witness :
  let s := set_hw HC11.hw_late (mkState HC11.hw_early false 11 0 65000 []) in
  (0 <= HC11.OC4F < 256 /\ in_table (cycle_next s))
  /\ exists s' : state,
       output_compare_interrupt HC11.TFLG1 HC11.OC4F s = Some (tt, s')
       /\ trace s' =
          [ IoRead HC11.TFLG1 255; IoWrite HC11.TFLG1 255;
            ReadCycleTable 11 200;
            SetOutputCompare4 65200; StoreChangeTime 65200;
            StoreCycleNext 12; StoreCycleNext 0; StoreWakeup 1 ]
       /\ wakeup s' = 1.
Proof.
  assert (HF : 0 <= HC11.OC4F < 256) by (unfold HC11.OC4F; lia).
  assert (Hp : in_table 11) by (unfold in_table; rewrite table_size; lia).
  split; [split; [exact HF|exact Hp]|].
  destruct (handler_order HC11.TFLG1 HC11.OC4F
              (set_hw HC11.hw_late (mkState HC11.hw_early false 11 0 65000 []))
              HF Hp) as (s' & Hrun & Htr & _ & Hw & _).
  exists s'. split; [exact Hrun|]. split; [exact Htr|exact Hw].
Defined.

Lemma first_compare_target_witness :
  let h := HC11.hw_early in
  ushort (TCNT h) + 300 < 65536
  /\ exists m1 : cpu,
       tick HC11.TFLG1 HC11.OC4F HC11.TCTL1 HC11.OL4 HC11.TMSK1 HC11.OC4I
            HC11.OUTPUT4_VECTOR HC11.every_third 0 (main_entry h 7 1 0 0 0 0)
       = Some m1
       /\ change_time (mem m1) = 400
       /\ programmed (trace (mem m1)) = [400].
Proof.
  assert (Hfit : ushort (TCNT HC11.hw_early) + 300 < 65536)
    by (vm_compute; reflexivity).
  split; [exact Hfit|].
  destruct (first_compare_target HC11.TFLG1 HC11.OC4F HC11.TCTL1 HC11.OL4
              HC11.TMSK1 HC11.OC4I HC11.OUTPUT4_VECTOR HC11.every_third 0
              HC11.hw_early 7 1 0 0 0 0)
    as (m1 & m & Ht & _ & _ & Hexact & Hpr & _).
  exists m1. split; [exact Ht|].
  pose proof (Hexact Hfit) as Hct. split; [exact Hct|].
  rewrite Hpr, Hct. reflexivity.
Defined.

Lemma driver_loop_preserves_engine_state_witness :
  let m := mkCpu HC11.s_armed L_body 5 127 0 in
  pc m <> L_entry
  /\ exists m' : cpu,
       main_step HC11.TCTL1 HC11.OL4 HC11.TMSK1 HC11.OC4I
                 HC11.OUTPUT4_VECTOR m = Some m'
       /\ change_time (mem m') = change_time (mem m)
       /\ cycle_next (mem m') = cycle_next (mem m)
       /\ engine_stores (trace (mem m')) = engine_stores (trace (mem m))
       /\ programmed (trace (mem m')) = programmed (trace (mem m)).
Proof.
  assert (Hpc : pc (mkCpu HC11.s_armed L_body 5 127 0) <> L_entry)
    by discriminate.
  split; [exact Hpc|].
  apply (driver_loop_preserves_engine_state HC11.TCTL1 HC11.OL4 HC11.TMSK1
           HC11.OC4I HC11.OUTPUT4_VECTOR
           (mkCpu HC11.s_armed L_body 5 127 0) Hpc).
Defined.

Lemma main_returns_after_1000_wakeups_witness :
  let e := main_entry HC11.hw_early 7 1 0 0 0 0 in
  let r :=
    run HC11.TFLG1 HC11.OC4F HC11.TCTL1 HC11.OL4 HC11.TMSK1 HC11.OC4I
        HC11.OUTPUT4_VECTOR HC11.every_third in
  waits_end HC11.TFLG1 HC11.OC4F HC11.TCTL1 HC11.OL4 HC11.TMSK1 HC11.OC4I
            HC11.OUTPUT4_VECTOR HC11.every_third e
  /\ (exists (n : nat) (m : cpu),
         r n 0%nat e = Some m
         /\ pc m = L_return 0
         /\ j m = 1000
         /\ wakeup_stores 0 (trace (mem m)) = 1000%nat
         /\ (1000 <= wakeup_stores 1 (trace (mem m)))%nat
         /\ serial_output (trace (mem m)) =
            [ ascii_of_nat 8; ascii_of_nat 92; ascii_of_nat 8;
              ascii_of_nat 124; ascii_of_nat 8; ascii_of_nat 47;
              ascii_of_nat 8; ascii_of_nat 45 ])
  /\ (forall n : nat,
         exists m : cpu,
           r (S n) 0%nat e = Some m
           /\ 0 <= j m <= 1000
           /\ c m = j m mod 256
           /\ serial_output (trace (mem m)) =
              flat_map
                (fun k : nat =>
                   if Z.of_nat k mod 256 =? 1 then [ascii_of_nat 8]
                   else if Z.of_nat k mod 256 =? 128
                        then [spinner ((Z.of_nat k + 128) / 256)]
                        else [])
                (seq 1 (Z.to_nat (j m)))).
Proof.
  assert (Hwaits : waits_end HC11.TFLG1 HC11.OC4F HC11.TCTL1 HC11.OL4
                     HC11.TMSK1 HC11.OC4I HC11.OUTPUT4_VECTOR
                     HC11.every_third (main_entry HC11.hw_early 7 1 0 0 0 0)).
  { intros t m _ _. unfold HC11.every_third.
    pose proof (Nat.mod_upper_bound t 3 ltac:(discriminate)) as Hb.
    destruct (t mod 3)%nat as [|[|[|r]]] eqn:E.
    - exists 0%nat. rewrite Nat.add_0_r, E. discriminate.
    - exists 2%nat. rewrite Nat.Div0.add_mod, E. discriminate.
    - exists 1%nat. rewrite Nat.Div0.add_mod, E. discriminate.
    - lia. }
  split; [exact Hwaits|].
  exact (main_returns_after_1000_wakeups HC11.TFLG1 HC11.OC4F HC11.TCTL1
           HC11.OL4 HC11.TMSK1 HC11.OC4I HC11.OUTPUT4_VECTOR HC11.every_third
           HC11.hw_early 7 1 0 0 0 0 Hwaits).
Defined.

Lemma handler_writes_back_flags_read_witness :
  let s := set_hw HC11.hw_late HC11.s_armed in
  in_table (cycle_next s)
  /\ exists s' : state,
       output_compare_interrupt HC11.TFLG1 HC11.OC4F s = Some (tt, s')
       /\ let f := uchar (_io_ports (hw s) HC11.TFLG1) in
          let ack := uchar (Z.lor f HC11.OC4F) in
          io_accesses (trace s') =
          io_accesses (trace s) ++ [(HC11.TFLG1, f); (HC11.TFLG1, ack)]
          /\ Z.land ack f = f
          /\ serial_output (trace s') = serial_output (trace s)
          /\ setup_calls (trace s') = setup_calls (trace s)
          /\ locked s' = locked s.
Proof.
  assert (Hp : in_table (cycle_next (set_hw HC11.hw_late HC11.s_armed)))
    by exact in_table_0.
  split; [exact Hp|].
  exact (handler_writes_back_flags_read HC11.TFLG1 HC11.OC4F
           (set_hw HC11.hw_late HC11.s_armed) Hp).
Defined.

Lemma waveform_period_witness :
  let hs := repeat HC11.hw_late 24 in
  let s := mkState HC11.hw_early false 7 0 65000 [] in
  (in_table (cycle_next s) /\ List.length hs = (12 * 2)%nat)
  /\ exists s' : state,
       interrupts HC11.TFLG1 HC11.OC4F hs s = Some s'
       /\ cycle_next s' = cycle_next s
       /\ ushort (change_time s') =
          ushort (change_time s + 30600 * Z.of_nat 2).
Proof.
  assert (Hp : in_table 7) by (unfold in_table; rewrite table_size; lia).
  split; [split; [exact Hp|reflexivity]|].
  apply (waveform_period HC11.TFLG1 HC11.OC4F (repeat HC11.hw_late 24) 2
           (mkState HC11.hw_early false 7 0 65000 []) Hp).
  reflexivity.
Defined.

Lemma interrupts_before_clear_are_lost_witness :
  let m := mkCpu HC11.s_armed L_clear 0 0 0 in
  (running m /\ pc m = L_clear /\ HC11.every_third 1%nat = [])
  /\ exists m' : cpu,
       run HC11.TFLG1 HC11.OC4F HC11.TCTL1 HC11.OL4 HC11.TMSK1 HC11.OC4I
           HC11.OUTPUT4_VECTOR HC11.every_third 2 0 m = Some m'
       /\ pc m' = L_spin
       /\ wakeup (mem m') = 0
       /\ j m' = j m
       /\ wakeup_stores 1 (trace (mem m')) =
          (wakeup_stores 1 (trace (mem m))
           + List.length (HC11.every_third 0%nat))%nat.
Proof.
  assert (Hr : running (mkCpu HC11.s_armed L_clear 0 0 0)).
  { split; [discriminate|]. split; [reflexivity|exact in_table_0]. }
  split; [split; [exact Hr|split; reflexivity]|].
  exact (interrupts_before_clear_are_lost HC11.TFLG1 HC11.OC4F HC11.TCTL1
           HC11.OL4 HC11.TMSK1 HC11.OC4I HC11.OUTPUT4_VECTOR HC11.every_third
           0 (mkCpu HC11.s_armed L_clear 0 0 0) Hr eq_refl eq_refl).
Defined.

Lemma main_returns_within_witness :
  (gap_bounded 2 HC11.every_third
   /\ (1000 * (2 + 4) + 2 <= 1000 * (2 + 4) + 2)%nat)
  /\ exists m : cpu,
       run HC11.TFLG1 HC11.OC4F HC11.TCTL1 HC11.OL4 HC11.TMSK1 HC11.OC4I
           HC11.OUTPUT4_VECTOR HC11.every_third (1000 * (2 + 4) + 2) 0
           (main_entry HC11.hw_early 7 1 0 0 0 0) = Some m
       /\ pc m = L_return 0
       /\ j m = 1000.
Proof.
  assert (Hgap : gap_bounded 2 HC11.every_third).
  { intros t. unfold HC11.every_third.
    pose proof (Nat.mod_upper_bound t 3 ltac:(discriminate)) as Hb.
    destruct (t mod 3)%nat as [|[|[|r]]] eqn:E.
    - exists 0%nat. split; [lia|]. rewrite Nat.add_0_r, E. discriminate.
    - exists 2%nat. split; [lia|]. rewrite Nat.Div0.add_mod, E. discriminate.
    - exists 1%nat. split; [lia|]. rewrite Nat.Div0.add_mod, E. discriminate.
    - lia. }
  split; [split; [exact Hgap|apply le_n]|].
  exact (main_returns_within HC11.TFLG1 HC11.OC4F HC11.TCTL1 HC11.OL4
           HC11.TMSK1 HC11.OC4I HC11.OUTPUT4_VECTOR HC11.every_third 2
           (1000 * (2 + 4) + 2) HC11.hw_early 7 1 0 0 0 0 Hgap
           (le_n (1000 * (2 + 4) + 2))).
Defined.

Lemma main_spins_without_interrupts_witness :
  (forall t : nat, HC11.never t = [])
  /\ exists m : cpu,
       run HC11.TFLG1 HC11.OC4F HC11.TCTL1 HC11.OL4 HC11.TMSK1 HC11.OC4I
           HC11.OUTPUT4_VECTOR HC11.never (3 + 500) 0
           (main_entry HC11.hw_late 7 1 0 0 0 0) = Some m
       /\ pc m = L_spin
       /\ wakeup (mem m) = 0
       /\ j m = 0
       /\ serial_output (trace (mem m)) = []
       /\ wakeup_stores 1 (trace (mem m)) = O.
Proof.
  assert (Hidle : forall t : nat, HC11.never t = []) by (intros t; reflexivity).
  split; [exact Hidle|].
  exact (main_spins_without_interrupts HC11.TFLG1 HC11.OC4F HC11.TCTL1
           HC11.OL4 HC11.TMSK1 HC11.OC4I HC11.OUTPUT4_VECTOR HC11.never 500
           HC11.hw_late 7 1 0 0 0 0 Hidle).
Defined.
